(** * The colour assignment engine of [colors.js]

    A shallow embedding of the module-level state of [colors.js]
    ([colorCache], [availableColors]) and of its four exported functions
    ([resetColorSystem], [getColorForGroup], [getColorCache],
    [setColorForGroup]), followed by the properties of the engine.

    Modelling conventions.
    - A JavaScript string is a [string] whose characters are code units
      below 256 (the Latin-1 range).
    - A JavaScript value is a [jsval]: the engine only ever handles
      strings, [null], [undefined] and the members that the object
      literal [{}] inherits from [Object.prototype].
    - [colorCache] is the finite map of the OWN properties of the object;
      reads go through [js_get], which continues on the prototype when
      there is no own property, and writes go through [js_set].
    - The mutable module state is threaded explicitly: every operation
      takes an [engine] and returns the next one. *)

From Stdlib Require Import Ascii String.
From stdpp Require Import gmap strings list fin_maps.

Open Scope string_scope.
Open Scope list_scope.
Open Scope nat_scope.

(** ** JavaScript values and objects *)

Module JS.

(** The values that can flow through the engine.  [VInherited k] is
    the value found under the key [k] of [Object.prototype]: a builtin
    function, or the prototype object itself for [__proto__]. *)
Inductive jsval :=
| VUndefined
| VNull
| VStr (s : string)
| VInherited (k : string).

#[global] Instance jsval_eq_dec : EqDecision jsval.
Proof. solve_decision. Defined.

(** The argument of a call: a string, or nothing at all. *)
Inductive jsname :=
| Undefined
| Name (s : string).

#[global] Instance jsname_eq_dec : EqDecision jsname.
Proof. solve_decision. Defined.

(** ToBoolean on strings: only the empty string is falsy. *)
Definition str_truthy (s : string) : bool :=
  match s with
  | EmptyString => false
  | String _ _ => true
  end.

(** ToBoolean. *)
Definition truthy (v : jsval) : bool :=
  match v with
  | VUndefined | VNull => false
  | VStr s => str_truthy s
  | VInherited _ => true
  end.

Definition name_truthy (n : jsname) : bool :=
  match n with
  | Undefined => false
  | Name s => str_truthy s
  end.

(** ToPropertyKey of the argument. *)
Definition to_key (n : jsname) : string :=
  match n with
  | Undefined => "undefined"
  | Name s => s
  end.

(** The property names of [Object.prototype] in a browser. *)
Definition objectPrototypeKeys : list string :=
  [ "constructor"; "__defineGetter__"; "__defineSetter__";
    "hasOwnProperty"; "__lookupGetter__"; "__lookupSetter__";
    "isPrototypeOf"; "propertyIsEnumerable"; "toString"; "valueOf";
    "__proto__"; "toLocaleString" ].

Definition inherited (k : string) : bool :=
  bool_decide (k ∈ objectPrototypeKeys).

(** [o[k]] for an object created by [{}] whose own properties are [o]:
    the own property when there is one, the member of
    [Object.prototype] otherwise, [undefined] when there is none. *)
Definition js_get (o : gmap string jsval) (k : string) : jsval :=
  match o !! k with
  | Some v => v
  | None => if inherited k then VInherited k else VUndefined
  end.

(** [o[k] = v].  An own property is created or overwritten, except
    for the key [__proto__]: without an own property of that name the
    assignment reaches the accessor of [Object.prototype], whose
    setter ignores every value that is neither an object nor [null]
    (the engine never stores one of those). *)
Definition js_set (o : gmap string jsval) (k : string) (v : jsval)
  : gmap string jsval :=
  if bool_decide (k = "__proto__") && bool_decide (o !! k = None)
  then o
  else <[k := v]> o.

(** [Object.keys(o)] and [Object.values(o)]: the own enumerable
    properties.  Their order is not observed by the engine, which only
    takes the length of the first and tests membership in the second. *)
Definition Object_keys (o : gmap string jsval) : list string :=
  (map_to_list o).*1.

Definition Object_values (o : gmap string jsval) : list jsval :=
  (map_to_list o).*2.

(** [a.includes(v)] (SameValueZero, which is equality on [jsval]). *)
Definition Array_includes (a : list jsval) (v : jsval) : bool :=
  bool_decide (v ∈ a).

(** [a[i]] on an array of strings. *)
Definition Array_at (a : list string) (i : nat) : jsval :=
  match a !! i with
  | Some s => VStr s
  | None => VUndefined
  end.

(** [a.find(p)] on an array of strings. *)
Definition Array_find (p : string → bool) (a : list string) : jsval :=
  match List.find p a with
  | Some s => VStr s
  | None => VUndefined
  end.

(** [String.prototype.toLowerCase] on code units below 256. *)
Definition lower_char (c : ascii) : ascii :=
  let n := nat_of_ascii c in
  if ((65 <=? n) && (n <=? 90)
      || (192 <=? n) && (n <=? 222) && negb (n =? 215))%nat
  then ascii_of_nat (n + 32)
  else c.

Fixpoint toLowerCase (s : string) : string :=
  match s with
  | EmptyString => EmptyString
  | String c s' => String (lower_char c) (toLowerCase s')
  end.

(** [s.includes(sub)]: [sub] occurs in [s]. *)
Fixpoint String_includes (s sub : string) : bool :=
  String.prefix sub s
  || match s with
     | EmptyString => false
     | String _ s' => String_includes s' sub
     end.

End JS.

Import JS.

(** ** The module [colors.js] *)

(** Distinct colour palette for up to 10 series. *)
Definition distinctPalette : list string :=
  [ "#E6194B"; "#3CB44B"; "#FFE119"; "#4363D8"; "#F58231";
    "#911EB4"; "#46F0F0"; "#F032E6"; "#BCF60C"; "#FABEBE" ].

(** Category-based colour preferences, in declaration order (the order
    in which [Object.keys] lists them). *)
Definition categoryBaseColor : list (string * jsval) :=
  [ ("ecodesign", Array_at distinctPalette 4);
    ("fireplace", Array_at distinctPalette 0);
    ("gas", Array_at distinctPalette 3);
    ("power", Array_at distinctPalette 1);
    ("road", Array_at distinctPalette 6) ].

(** [categoryBaseColor[cat]] for an own key. *)
Fixpoint category_get (o : list (string * jsval)) (k : string) : jsval :=
  match o with
  | [] => VUndefined
  | (k', v) :: o' => if String.eqb k' k then v else category_get o' k
  end.

(** Colour assignment state. *)
Record engine := Engine {
  colorCache : gmap string jsval;
  availableColors : list string
}.

(** The state once the module has been loaded. *)
Definition initial : engine :=
  {| colorCache := ∅; availableColors := distinctPalette |}.

Definition resetColorSystem (st : engine) : engine :=
  {| colorCache := ∅; availableColors := distinctPalette |}.

(** The preferred colour of a name (lines 50 to 54 of the function
    below): the colour of the first category key, in declaration order,
    that occurs in the lowercased name, [null] when there is none. *)
Definition baseColorFor (key : string) : jsval :=
  let lower := toLowerCase key in
  let cat := List.find (λ c, String_includes lower c) (categoryBaseColor.*1) in
  match cat with
  | Some c => if str_truthy c then category_get categoryBaseColor c else VNull
  | None => VNull
  end.

Definition getColorForGroup (name : jsname) (st : engine) : jsval * engine :=
  if negb (name_truthy name) then (VStr "#888888", st) else
  let key := to_key name in
  let cached := js_get (colorCache st) key in
  if truthy cached then (cached, st) else
  let baseColor := baseColorFor key in
  let chosenColor := baseColor in
  let chosenColor :=
    if negb (truthy chosenColor)
       || Array_includes (Object_values (colorCache st)) chosenColor
    then Array_find
           (λ c, negb (Array_includes (Object_values (colorCache st)) (VStr c)))
           (availableColors st)
    else chosenColor in
  let chosenColor :=
    if negb (truthy chosenColor)
    then Array_at distinctPalette
           (length (Object_keys (colorCache st)) `mod` length distinctPalette)
    else chosenColor in
  (chosenColor,
   {| colorCache := js_set (colorCache st) key chosenColor;
      availableColors := availableColors st |}).

(** The snapshot is a copy of the own properties. *)
Definition getColorCache (st : engine) : gmap string jsval :=
  colorCache st.

Definition setColorForGroup (name : jsname) (color : string) (st : engine)
  : engine :=
  {| colorCache := js_set (colorCache st) (to_key name) (VStr color);
     availableColors := availableColors st |}.

(** ** Sequences of calls *)

(** One call from the outside. *)
Inductive call :=
| CReset
| CGet (name : jsname)
| CSet (name : jsname) (color : string)
| CCache.

(** What a call hands back to its caller. *)
Inductive answer :=
| ANone
| AColor (v : jsval)
| ASnapshot (m : gmap string jsval).

Definition step (c : call) (st : engine) : answer * engine :=
  match c with
  | CReset => (ANone, resetColorSystem st)
  | CGet n => let '(v, st') := getColorForGroup n st in (AColor v, st')
  | CSet n col => (ANone, setColorForGroup n col st)
  | CCache => (ASnapshot (getColorCache st), st)
  end.

Fixpoint run (cs : list call) (st : engine) : list answer * engine :=
  match cs with
  | [] => ([], st)
  | c :: cs' =>
      let '(a, st1) := step c st in
      let '(az, st2) := run cs' st1 in
      (a :: az, st2)
  end.

(** [names.map(n => getColorForGroup(n))]. *)
Fixpoint assignAll (names : list jsname) (st : engine)
  : list jsval * engine :=
  match names with
  | [] => ([], st)
  | n :: names' =>
      let '(v, st1) := getColorForGroup n st in
      let '(vs, st2) := assignAll names' st1 in
      (v :: vs, st2)
  end.

(** The engine once the own property [name] holds [v]. *)
Definition stored (name : string) (v : jsval) (st : engine) : engine :=
  {| colorCache := <[name := v]> (colorCache st);
     availableColors := availableColors st |}.

(** The engine after the names [done], all different, have been passed
    one call each to an engine that started with an empty cache, while
    fewer than ten colours were taken; [outs] are the values returned. *)
Record tracks (done : list string) (outs : list jsval) (st : engine)
  : Prop := Tracks {
  tr_palette : availableColors st = distinctPalette;
  tr_keys : ∀ k, is_Some (colorCache st !! k) → k ∈ done;
  tr_values : ∀ v, v ∈ Object_values (colorCache st) →
                   v ∈ outs ∧ ∃ c, v = VStr c ∧ c ∈ distinctPalette;
  tr_outs : ∀ v, v ∈ outs →
                 v ∈ Object_values (colorCache st)
                 ∨ ∃ k, k ∈ done ∧ inherited k = true ∧ v = VInherited k;
  tr_inj : ∀ k1 k2 v, colorCache st !! k1 = Some v →
                      colorCache st !! k2 = Some v → k1 = k2;
  tr_nodup : NoDup outs;
  tr_size : size (colorCache st)
            = length (List.filter (λ k, negb (inherited k)) done);
  tr_length : length outs = length done
}.

(** ** The callers of the engine *)

(** [getSelectedGroups] of the chart pages, as a function of the values
    of the [select] elements of the group container, in document
    order: the placeholder (the empty value) is dropped by
    [filter(Boolean)]. *)
Definition getSelectedGroups (values : list string) : list string :=
  List.filter str_truthy values.

(** The colour assignment of [updateChart]: the engine is reset, then
    every selected group is given its colour, in selection order.  The
    result is the array [colors] and the engine left behind. *)
Definition updateChart (values : list string) (st : engine)
  : list jsval * engine :=
  let st1 := resetColorSystem st in
  let selectedGroupNames := getSelectedGroups values in
  assignAll (Name <$> selectedGroupNames) st1.

(** ** Predicates used by the properties *)

(** A call that may change what the cache holds for [name]: a reset, or
    an override of that very key. *)
Definition disturbs (name : string) (c : call) : bool :=
  match c with
  | CReset => true
  | CSet n _ => bool_decide (to_key n = name)
  | CGet _ | CCache => false
  end.

Definition is_override (c : call) : bool :=
  match c with
  | CSet _ _ => true
  | _ => false
  end.

(** An engine whose cache only has keys among [names], holds palette
    colours only, and holds no colour twice. *)
Record palette_state (names : gset string) (st : engine) : Prop :=
  PaletteState {
  ps_palette : availableColors st = distinctPalette;
  ps_keys : dom (colorCache st) ⊆ names;
  ps_values : ∀ k v, colorCache st !! k = Some v →
                     ∃ c, v = VStr c ∧ c ∈ distinctPalette;
  ps_inj : ∀ k1 k2 v, colorCache st !! k1 = Some v →
                      colorCache st !! k2 = Some v → k1 = k2
}.

(** An engine whose palette is used up, after one entry was stored for
    each of the names [done]. *)
Record exhausted (done : list string) (st : engine) : Prop := Exhausted {
  ex_palette : availableColors st = distinctPalette;
  ex_keys : ∀ k, is_Some (colorCache st !! k) → k ∈ done;
  ex_full : ∀ c, c ∈ distinctPalette →
                 VStr c ∈ Object_values (colorCache st);
  ex_size : size (colorCache st) = length done
}.

(** ** Basic facts about the JavaScript layer *)

Section JsFacts.

Implicit Types (o : gmap string jsval) (k : string) (v : jsval).

Lemma str_truthy_true (s : string) : str_truthy s = true ↔ s ≠ "".
Proof. destruct s; simpl; split; intros; congruence. Qed.

Lemma Object_values_spec o v :
  v ∈ Object_values o ↔ ∃ k, o !! k = Some v.
Proof.
  unfold Object_values. rewrite list_elem_of_fmap. split.
  - intros [[k w] [-> Hin]]. exists k. by apply elem_of_map_to_list.
  - intros [k Hk]. exists (k, v). split; [done|].
    by apply elem_of_map_to_list.
Qed.

Lemma Object_keys_length o : length (Object_keys o) = size o.
Proof. unfold Object_keys. by rewrite length_fmap, length_map_to_list. Qed.

Lemma Array_includes_true (a : list jsval) v :
  Array_includes a v = true ↔ v ∈ a.
Proof. unfold Array_includes. apply bool_decide_eq_true. Qed.

Lemma Array_includes_false (a : list jsval) v :
  Array_includes a v = false ↔ v ∉ a.
Proof. unfold Array_includes. apply bool_decide_eq_false. Qed.

Lemma inherited_true k : inherited k = true ↔ k ∈ objectPrototypeKeys.
Proof. unfold inherited. apply bool_decide_eq_true. Qed.

Lemma js_get_own o k v : o !! k = Some v → js_get o k = v.
Proof. unfold js_get. by intros ->. Qed.

Lemma js_get_absent o k :
  o !! k = None →
  js_get o k = if inherited k then VInherited k else VUndefined.
Proof. unfold js_get. by intros ->. Qed.

(** A falsy read of a key without own property: the key is not a
    member of the prototype. *)
Lemma js_get_falsy_absent o k :
  o !! k = None → truthy (js_get o k) = false → inherited k = false.
Proof.
  intros Hk. rewrite (js_get_absent _ _ Hk). by destruct (inherited k).
Qed.

(** After a falsy read, the assignment does create or overwrite the
    own property. *)
Lemma js_set_after_falsy o k v :
  truthy (js_get o k) = false → js_set o k v = <[k := v]> o.
Proof.
  intros Hf. unfold js_set.
  destruct (bool_decide_reflect (k = "__proto__")) as [->|]; [|done].
  destruct (bool_decide_reflect (o !! "__proto__" = None)) as [Hn|]; [|done].
  rewrite (js_get_absent _ _ Hn) in Hf. discriminate.
Qed.

Lemma js_set_plain o k v : k ≠ "__proto__" → js_set o k v = <[k := v]> o.
Proof.
  intros Hk. unfold js_set. by rewrite (bool_decide_eq_false_2 _ Hk).
Qed.

Lemma js_get_set_plain o k v :
  k ≠ "__proto__" → js_get (js_set o k v) k = v.
Proof.
  intros Hk. rewrite js_set_plain by done.
  apply js_get_own, lookup_insert_eq.
Qed.

End JsFacts.

(** ** The assignment policy, branch by branch *)

Section Policy.

Implicit Types (st : engine) (name : string) (c : string).

(** [find] returns the first element that passes the test. *)
Lemma find_first {A} (f : A → bool) (pre post : list A) (x : A) :
  Forall (λ y, f y = false) pre → f x = true →
  List.find f (pre ++ x :: post) = Some x.
Proof.
  induction 1 as [|y pre Hy _ IH]; simpl; intros Hx.
  - by rewrite Hx.
  - rewrite Hy. by apply IH.
Qed.

Lemma find_first_inv {A} (f : A → bool) (l : list A) (x : A) :
  List.find f l = Some x →
  ∃ pre post, l = pre ++ x :: post ∧ Forall (λ y, f y = false) pre ∧ f x = true.
Proof.
  induction l as [|y l IH]; simpl; [done|].
  destruct (f y) eqn:Hy.
  - intros [= ->]. by exists [], l.
  - intros Hl. destruct (IH Hl) as (pre & post & -> & Hpre & Hx).
    exists (y :: pre), post. by repeat constructor.
Qed.

(** The preferred colour is [null] or one of the palette colours. *)
Lemma baseColorFor_cases name :
  baseColorFor name = VNull ∨
  ∃ c, baseColorFor name = VStr c ∧ c ∈ distinctPalette.
Proof.
  unfold baseColorFor.
  destruct (List.find _ _) as [cat|] eqn:Hfind; [|by left].
  apply find_some in Hfind as [Hin _]. right.
  simpl in Hin.
  destruct Hin as [<-|[<-|[<-|[<-|[<-|[]]]]]]; simpl;
    eexists; (split; [reflexivity|]); unfold distinctPalette;
    rewrite !elem_of_cons; tauto.
Qed.

Lemma palette_truthy c : c ∈ distinctPalette → str_truthy c = true.
Proof.
  unfold distinctPalette. rewrite !elem_of_cons, elem_of_nil.
  intros H. repeat (destruct H as [->|H]; [done|]). done.
Qed.

Lemma palette_NoDup : NoDup distinctPalette.
Proof. apply (bool_decide_unpack _). by vm_compute. Qed.

Lemma palette_length : length distinctPalette = 10.
Proof. reflexivity. Qed.

(** The three ways in which an uncached name receives its colour. *)

Lemma getColorForGroup_cached name st :
  name ≠ "" → truthy (js_get (colorCache st) name) = true →
  getColorForGroup (Name name) st = (js_get (colorCache st) name, st).
Proof.
  intros Hn Hc. unfold getColorForGroup. simpl.
  apply str_truthy_true in Hn. by rewrite Hn, Hc.
Qed.

Lemma getColorForGroup_base name st :
  name ≠ "" → truthy (js_get (colorCache st) name) = false →
  truthy (baseColorFor name) = true →
  baseColorFor name ∉ Object_values (colorCache st) →
  getColorForGroup (Name name) st
  = (baseColorFor name, stored name (baseColorFor name) st).
Proof.
  intros Hn Hc Hb Hfree. unfold getColorForGroup. simpl.
  apply str_truthy_true in Hn. rewrite Hn, Hc. simpl.
  apply Array_includes_false in Hfree. rewrite Hb, Hfree. simpl.
  rewrite Hb. simpl. by rewrite js_set_after_falsy.
Qed.

Lemma getColorForGroup_scan name st c :
  name ≠ "" → truthy (js_get (colorCache st) name) = false →
  truthy (baseColorFor name) = false
  ∨ baseColorFor name ∈ Object_values (colorCache st) →
  List.find
    (λ c, negb (Array_includes (Object_values (colorCache st)) (VStr c)))
    (availableColors st) = Some c →
  str_truthy c = true →
  getColorForGroup (Name name) st = (VStr c, stored name (VStr c) st).
Proof.
  intros Hn Hc Hb Hfind Hct. unfold getColorForGroup. simpl.
  apply str_truthy_true in Hn. rewrite Hn, Hc. simpl.
  assert (negb (truthy (baseColorFor name))
          || Array_includes (Object_values (colorCache st)) (baseColorFor name)
          = true) as ->.
  { destruct Hb as [->|Hb]; [done|].
    apply Array_includes_true in Hb. rewrite Hb. apply orb_true_r. }
  unfold Array_find. rewrite Hfind. simpl. rewrite Hct. simpl.
  by rewrite js_set_after_falsy.
Qed.

Lemma getColorForGroup_exhausted name st :
  name ≠ "" → truthy (js_get (colorCache st) name) = false →
  truthy (baseColorFor name) = false
  ∨ baseColorFor name ∈ Object_values (colorCache st) →
  List.find
    (λ c, negb (Array_includes (Object_values (colorCache st)) (VStr c)))
    (availableColors st) = None →
  let v := Array_at distinctPalette (size (colorCache st) `mod` 10) in
  getColorForGroup (Name name) st = (v, stored name v st).
Proof.
  intros Hn Hc Hb Hfind. unfold getColorForGroup. simpl.
  apply str_truthy_true in Hn. rewrite Hn, Hc. simpl.
  assert (negb (truthy (baseColorFor name))
          || Array_includes (Object_values (colorCache st)) (baseColorFor name)
          = true) as ->.
  { destruct Hb as [->|Hb]; [done|].
    apply Array_includes_true in Hb. rewrite Hb. apply orb_true_r. }
  unfold Array_find. rewrite Hfind. simpl.
  rewrite Object_keys_length. by rewrite js_set_after_falsy.
Qed.

End Policy.

(** ** Facts shared by the properties below *)

Section Shared.

Implicit Types (st : engine) (name : string).

Lemma Object_values_empty : Object_values ∅ = [].
Proof. unfold Object_values. by rewrite map_to_list_empty. Qed.

Lemma palette_at_str (i : nat) :
  i < 10 →
  ∃ c, Array_at distinctPalette i = VStr c ∧ c ∈ distinctPalette.
Proof.
  intros Hi. unfold distinctPalette.
  do 10 (destruct i as [|i];
         [eexists; split; [reflexivity|]; rewrite !elem_of_cons; tauto|]).
  lia.
Qed.

(** A name without cached colour gets a non-empty string, stored
    under the name itself. *)
Lemma getColorForGroup_fresh name st :
  name ≠ "" → truthy (js_get (colorCache st) name) = false →
  ∃ c, str_truthy c = true
       ∧ getColorForGroup (Name name) st = (VStr c, stored name (VStr c) st).
Proof.
  intros Hn Hc. unfold getColorForGroup. cbn [name_truthy to_key].
  apply str_truthy_true in Hn. rewrite Hn. cbn [negb]. rewrite Hc.
  set (chosen := if _ || _ then _ else _).
  rewrite js_set_after_falsy by done.
  destruct (truthy chosen) eqn:Ht; cbn [negb].
  - assert (∃ c, chosen = VStr c) as [c Hch].
    { subst chosen. destruct (_ || _).
      - unfold Array_find in *. destruct (List.find _ _); [eauto|done].
      - destruct (baseColorFor_cases name) as [Hb|(c & Hb & _)];
          rewrite Hb in *; [done|eauto]. }
    rewrite Hch in *. eauto.
  - change (length distinctPalette) with 10.
    destruct (palette_at_str (length (Object_keys (colorCache st)) `mod` 10))
      as (c & -> & Hin); [by apply Nat.mod_upper_bound|].
    exists c. split; [by apply palette_truthy|done].
Qed.

Lemma step_availableColors (c : call) st :
  availableColors (step c st).2
  = match c with
    | CReset => distinctPalette
    | _ => availableColors st
    end.
Proof.
  destruct c as [|n|n col|]; simpl; try done.
  unfold getColorForGroup.
  destruct (negb (name_truthy n)); [done|].
  by destruct (truthy (js_get (colorCache st) (to_key n))).
Qed.

Lemma run_cons (c : call) (cs : list call) st :
  run (c :: cs) st
  = ((step c st).1 :: (run cs (step c st).2).1, (run cs (step c st).2).2).
Proof.
  simpl. destruct (step c st) as [a st1]. simpl.
  by destruct (run cs st1).
Qed.

Lemma run_availableColors (cs : list call) st :
  availableColors st = distinctPalette →
  availableColors (run cs st).2 = distinctPalette.
Proof.
  revert st. induction cs as [|c cs IH]; intros st Hst; [done|].
  rewrite run_cons. simpl. apply IH.
  rewrite step_availableColors. by destruct c.
Qed.

Lemma assignAll_cons (n : jsname) (names : list jsname) st :
  assignAll (n :: names) st
  = ((getColorForGroup n st).1
       :: (assignAll names (getColorForGroup n st).2).1,
     (assignAll names (getColorForGroup n st).2).2).
Proof.
  simpl. destruct (getColorForGroup n st) as [v st1]. simpl.
  by destruct (assignAll names st1).
Qed.

End Shared.

(** ** Properties of the engine *)

(** C6. [getColorForGroup] called with an empty or undefined name
    returns the sentinel colour [#888888] and leaves the cache as it
    was: [getColorCache] gives the same mapping before and after. *)
Theorem empty_name_sentinel (st : engine) :
  getColorForGroup Undefined st = (VStr "#888888", st)
  ∧ getColorForGroup (Name "") st = (VStr "#888888", st)
  ∧ getColorCache (getColorForGroup Undefined st).2 = getColorCache st
  ∧ getColorCache (getColorForGroup (Name "") st).2 = getColorCache st.
Proof. by repeat split. Qed.

(** C7. After [resetColorSystem] the snapshot of the cache is empty,
    and every sequence of calls answers exactly as on the engine of a
    freshly loaded module. *)
Theorem reset_restores_fresh_engine (st : engine) :
  getColorCache (resetColorSystem st) = ∅
  ∧ (∀ names : list jsname,
       assignAll names (resetColorSystem st) = assignAll names initial)
  ∧ (∀ cs : list call, run cs (resetColorSystem st) = run cs initial).
Proof. by repeat split. Qed.

(** C10. Only [resetColorSystem] writes [availableColors], and it
    writes the palette: after any sequence of calls on a loaded module
    [availableColors] is the palette in its original order, so the
    outcome of [getColorForGroup] is determined by the cache alone. *)
Theorem availableColors_is_palette :
  (∀ (c : call) (st : engine),
     availableColors (step c st).2
     = match c with
       | CReset => distinctPalette
       | _ => availableColors st
       end)
  ∧ (∀ cs : list call, availableColors (run cs initial).2 = distinctPalette)
  ∧ (∀ (cs : list call) (n : jsname),
       getColorForGroup n (run cs initial).2
       = getColorForGroup n
           {| colorCache := colorCache (run cs initial).2;
              availableColors := distinctPalette |}).
Proof.
  split; [apply step_availableColors|]. split.
  - intros cs. by apply run_availableColors.
  - intros cs n. f_equal.
    pose proof (run_availableColors cs initial eq_refl) as Hav.
    destruct (run cs initial).2 as [m av]. simpl in *. by subst.
Qed.

(** C2. For a non-empty name, a cached (truthy) colour is returned as
    it is and the engine is left untouched; and whatever the engine, a
    second call right after a first one returns the same colour and
    changes nothing. *)
Theorem getColorForGroup_idempotent (name : string) (st : engine) :
  name ≠ "" →
  (∀ v, colorCache st !! name = Some v → truthy v = true →
        getColorForGroup (Name name) st = (v, st))
  ∧ (∀ c1 st1, getColorForGroup (Name name) st = (c1, st1) →
               getColorForGroup (Name name) st1 = (c1, st1)).
Proof.
  intros Hn. split.
  - intros v Hv Ht. rewrite getColorForGroup_cached; try done.
    + by rewrite (js_get_own _ _ _ Hv).
    + by rewrite (js_get_own _ _ _ Hv).
  - intros c1 st1 H1.
    destruct (truthy (js_get (colorCache st) name)) eqn:Hc.
    + rewrite getColorForGroup_cached in H1 by done.
      injection H1 as <- <-. by apply getColorForGroup_cached.
    + destruct (getColorForGroup_fresh name st Hn Hc) as (c & Hv & Hget).
      rewrite Hget in H1. injection H1 as <- <-.
      assert (js_get (colorCache (stored name (VStr c) st)) name = VStr c)
        as Hg.
      { apply js_get_own. simpl. apply lookup_insert_eq. }
      rewrite getColorForGroup_cached; rewrite ?Hg; done.
Qed.

Lemma getColorForGroup_idempotent_witness :
  "Gas Boilers" ≠ ""
  ∧ getColorForGroup (Name "Gas Boilers") (stored "Gas Boilers" (VStr "#4363D8") initial)
    = (VStr "#4363D8", stored "Gas Boilers" (VStr "#4363D8") initial)
  ∧ getColorForGroup (Name "Gas Boilers")
      (getColorForGroup (Name "Gas Boilers") initial).2
    = getColorForGroup (Name "Gas Boilers") initial.
Proof.
  assert ("Gas Boilers" ≠ "") as Hn by discriminate.
  split; [exact Hn|]. split.
  - apply (getColorForGroup_idempotent "Gas Boilers"
             (stored "Gas Boilers" (VStr "#4363D8") initial) Hn); reflexivity.
  - destruct (getColorForGroup_idempotent "Gas Boilers" initial Hn) as [_ H].
    destruct (getColorForGroup (Name "Gas Boilers") initial) as [c1 st1] eqn:E.
    simpl. exact (H c1 st1 eq_refl).
Defined.

(** C3. On an engine with an empty cache, a name whose lowercasing
    contains a category key receives the colour of the first such key in
    declaration order, and the entry is stored under the name exactly
    as it was passed. *)
Theorem category_preference :
  (∀ (name cat color : string) (pre post : list (string * jsval)),
     categoryBaseColor = pre ++ (cat, VStr color) :: post →
     Forall (λ kv, String_includes (toLowerCase name) kv.1 = false) pre →
     String_includes (toLowerCase name) cat = true →
     getColorForGroup (Name name) initial
     = (VStr color,
        {| colorCache := {[ name := VStr color ]};
           availableColors := distinctPalette |}))
  ∧ categoryBaseColor
    = [ ("ecodesign", VStr "#F58231"); ("fireplace", VStr "#E6194B");
        ("gas", VStr "#4363D8"); ("power", VStr "#3CB44B");
        ("road", VStr "#46F0F0") ]
  ∧ (getColorForGroup (Name "Power Station A") initial).1 = VStr "#3CB44B"
  ∧ (getColorForGroup (Name "Gas Boilers") initial).1 = VStr "#4363D8"
  ∧ (getColorForGroup (Name "ECODESIGN Stove") initial).1 = VStr "#F58231"
  ∧ getColorCache (getColorForGroup (Name "ECODESIGN Stove") initial).2
    = {[ "ECODESIGN Stove" := VStr "#F58231" ]}
  ∧ getColorCache (getColorForGroup (Name "ECODESIGN Stove") initial).2
      !! "ecodesign stove" = None.
Proof.
  split; [|by vm_compute].
  intros name cat color pre post Hsplit Hpre Hcat.
  assert (baseColorFor name = VStr color) as Hbase.
  { unfold baseColorFor. rewrite Hsplit, fmap_app, fmap_cons. simpl.
    rewrite (find_first _ (pre.*1) (post.*1) cat).
    - assert ((cat, VStr color) ∈ categoryBaseColor) as Hin.
      { rewrite Hsplit. apply elem_of_app. right. left. }
      rewrite <- Hsplit. unfold categoryBaseColor in Hin.
      rewrite !elem_of_cons, elem_of_nil in Hin.
      destruct Hin as [H|[H|[H|[H|[H|[]]]]]]; by injection H as -> ->.
    - apply Forall_fmap. eapply Forall_impl; [exact Hpre|]. by intros [].
    - done. }
  assert (color ∈ distinctPalette ∧ cat ∈ categoryBaseColor.*1) as [Hcol Hkey].
  { assert ((cat, VStr color) ∈ categoryBaseColor) as Hin.
    { rewrite Hsplit. apply elem_of_app. right. left. }
    unfold categoryBaseColor in Hin.
    rewrite !elem_of_cons, elem_of_nil in Hin.
    destruct Hin as [H|[H|[H|[H|[H|[]]]]]]; injection H as -> ->;
      split; unfold distinctPalette; simpl; rewrite !elem_of_cons; tauto. }
  assert (name ≠ "" ∧ inherited name = false) as [Hne Hinh].
  { simpl in Hkey. rewrite !elem_of_cons, elem_of_nil in Hkey. split.
    - intros ->.
      destruct Hkey as [->|[->|[->|[->|[->|[]]]]]]; discriminate.
    - destruct (inherited name) eqn:Hi; [|done].
      apply inherited_true in Hi. unfold objectPrototypeKeys in Hi.
      rewrite !elem_of_cons, elem_of_nil in Hi.
      destruct Hkey as [->|[->|[->|[->|[->|[]]]]]];
        repeat (destruct Hi as [->|Hi]; [discriminate|]); done. }
  assert (truthy (js_get (colorCache initial) name) = false) as Hfalsy.
  { rewrite js_get_absent by apply lookup_empty. by rewrite Hinh. }
  rewrite getColorForGroup_base; try done.
  - by rewrite Hbase.
  - rewrite Hbase. simpl. by apply palette_truthy.
  - simpl. rewrite Object_values_empty. apply not_elem_of_nil.
Qed.

Lemma category_preference_witness :
  categoryBaseColor
  = [("ecodesign", VStr "#F58231"); ("fireplace", VStr "#E6194B")]
    ++ ("gas", VStr "#4363D8")
    :: [("power", VStr "#3CB44B"); ("road", VStr "#46F0F0")]
  ∧ Forall (λ kv, String_includes (toLowerCase "Gas Power Plant") kv.1 = false)
      [("ecodesign", VStr "#F58231"); ("fireplace", VStr "#E6194B")]
  ∧ String_includes (toLowerCase "Gas Power Plant") "gas" = true
  ∧ getColorForGroup (Name "Gas Power Plant") initial
    = (VStr "#4363D8",
       {| colorCache := {[ "Gas Power Plant" := VStr "#4363D8" ]};
          availableColors := distinctPalette |}).
Proof.
  assert (Forall (λ kv : string * jsval,
                    String_includes (toLowerCase "Gas Power Plant") kv.1 = false)
            [("ecodesign", VStr "#F58231"); ("fireplace", VStr "#E6194B")])
    as Hpre by (repeat constructor).
  split; [reflexivity|]. split; [exact Hpre|]. split; [reflexivity|].
  apply (proj1 category_preference "Gas Power Plant" "gas" "#4363D8"
           [("ecodesign", VStr "#F58231"); ("fireplace", VStr "#E6194B")]
           [("power", VStr "#3CB44B"); ("road", VStr "#46F0F0")]);
    [reflexivity | exact Hpre | reflexivity].
Defined.

(** C8 as stated fails.  The override of the empty name is stored, but
    [getColorForGroup] answers the sentinel for it; and an empty colour
    is stored, but counts as no colour at all: the next call assigns a
    palette colour in its place. *)
Lemma setColorForGroup_not_returned :
  (getColorCache (setColorForGroup (Name "") "#123456" initial) !! ""
   = Some (VStr "#123456")
   ∧ (getColorForGroup (Name "") (setColorForGroup (Name "") "#123456" initial)).1
     = VStr "#888888"
   ∧ (getColorForGroup (Name "") (setColorForGroup (Name "") "#123456" initial)).1
     ≠ VStr "#123456")
  ∧ (getColorCache (setColorForGroup (Name "X") "" initial) !! "X"
     = Some (VStr "")
     ∧ (getColorForGroup (Name "X") (setColorForGroup (Name "X") "" initial)).1
       = VStr "#E6194B"
     ∧ (getColorForGroup (Name "X") (setColorForGroup (Name "X") "" initial)).1
       ≠ VStr "").
Proof. by repeat split. Qed.

(** C8, amended. [setColorForGroup] creates or overwrites the entry of
    the name with the given colour, whatever the cache holds (the key
    [__proto__] left aside); and for a non-empty name and a non-empty
    colour, the next [getColorForGroup] returns exactly that colour,
    palette colour or not. *)
Theorem setColorForGroup_override :
  (∀ (n : jsname) (color : string) (st : engine),
     to_key n ≠ "__proto__" →
     getColorCache (setColorForGroup n color st)
     = <[to_key n := VStr color]> (getColorCache st))
  ∧ (∀ (name color : string) (st : engine),
       name ≠ "" → name ≠ "__proto__" → color ≠ "" →
       getColorForGroup (Name name) (setColorForGroup (Name name) color st)
       = (VStr color, setColorForGroup (Name name) color st))
  ∧ (∀ st : engine,
       (getColorForGroup (Name "X") (setColorForGroup (Name "X") "#123456" st)).1
       = VStr "#123456")
  ∧ "#123456" ∉ distinctPalette.
Proof.
  assert (∀ (name color : string) (st : engine),
            name ≠ "" → name ≠ "__proto__" → color ≠ "" →
            getColorForGroup (Name name) (setColorForGroup (Name name) color st)
            = (VStr color, setColorForGroup (Name name) color st)) as Hget.
  { intros name color st Hn Hp Hc.
    assert (js_get (colorCache (setColorForGroup (Name name) color st)) name
            = VStr color) as Hg by (by apply js_get_set_plain).
    rewrite getColorForGroup_cached; rewrite ?Hg; try done.
    by apply str_truthy_true. }
  split; [|split; [exact Hget|split]].
  - intros n color st Hk. unfold getColorCache, setColorForGroup. simpl.
    by apply js_set_plain.
  - intros st. by rewrite Hget.
  - apply (bool_decide_unpack _). by vm_compute.
Qed.

Lemma setColorForGroup_override_witness :
  to_key (Name "X") ≠ "__proto__" ∧ "X" ≠ "" ∧ "#123456" ≠ ""
  ∧ getColorCache (setColorForGroup (Name "X") "#123456" initial)
    = <[ "X" := VStr "#123456" ]> (getColorCache initial)
  ∧ getColorForGroup (Name "X") (setColorForGroup (Name "X") "#123456" initial)
    = (VStr "#123456", setColorForGroup (Name "X") "#123456" initial).
Proof.
  assert ("X" ≠ "__proto__") as Hp by discriminate.
  assert ("X" ≠ "") as Hn by discriminate.
  assert ("#123456" ≠ "") as Hc by discriminate.
  split; [exact Hp|]. split; [exact Hn|]. split; [exact Hc|]. split.
  - exact (proj1 setColorForGroup_override (Name "X") "#123456" initial Hp).
  - exact (proj1 (proj2 setColorForGroup_override) "X" "#123456" initial
             Hn Hp Hc).
Defined.

(** C4. A non-empty name without cached colour, whose preferred colour
    is missing or already among the values of the cache, receives the
    first palette colour, in palette order, that is not among those
    values.  So after a reset, "Power Station A" takes [#3CB44B] and
    "Power Station B" then takes [#E6194B], which was unused. *)
Theorem collision_fallback :
  (∀ (name c : string) (pre post : list string) (st : engine),
     name ≠ "" →
     truthy (js_get (colorCache st) name) = false →
     availableColors st = distinctPalette →
     truthy (baseColorFor name) = false
     ∨ baseColorFor name ∈ Object_values (colorCache st) →
     distinctPalette = pre ++ c :: post →
     Forall (λ c', VStr c' ∈ Object_values (colorCache st)) pre →
     VStr c ∉ Object_values (colorCache st) →
     getColorForGroup (Name name) st = (VStr c, stored name (VStr c) st))
  ∧ (∀ st0 : engine,
       let '(a, st1) :=
         getColorForGroup (Name "Power Station A") (resetColorSystem st0) in
       let '(b, st2) := getColorForGroup (Name "Power Station B") st1 in
       a = VStr "#3CB44B"
       ∧ b = VStr "#E6194B"
       ∧ b ≠ VStr "#3CB44B"
       ∧ "#E6194B" ∈ distinctPalette
       ∧ (b ∉ Object_values (colorCache st1))
       ∧ getColorCache st2
         = <[ "Power Station B" := VStr "#E6194B" ]>
             {[ "Power Station A" := VStr "#3CB44B" ]}).
Proof.
  split.
  - intros name c pre post st Hn Hfalsy Hav Hbase Hsplit Hpre Hfree.
    apply getColorForGroup_scan; try done.
    + rewrite Hav, Hsplit. apply find_first.
      * eapply Forall_impl; [exact Hpre|]. intros c' Hc'. simpl in Hc'.
        apply Array_includes_true in Hc'. by rewrite Hc'.
      * apply Array_includes_false in Hfree. by rewrite Hfree.
    + apply palette_truthy. rewrite Hsplit.
      apply elem_of_app. right. left.
  - intros st0. change (resetColorSystem st0) with initial.
    assert (getColorForGroup (Name "Power Station A") initial
            = (VStr "#3CB44B", stored "Power Station A" (VStr "#3CB44B") initial))
      as -> by (by vm_compute).
    assert (getColorForGroup (Name "Power Station B")
              (stored "Power Station A" (VStr "#3CB44B") initial)
            = (VStr "#E6194B",
               stored "Power Station B" (VStr "#E6194B")
                 (stored "Power Station A" (VStr "#3CB44B") initial)))
      as -> by (by vm_compute).
    repeat split; try done.
    + unfold distinctPalette. rewrite !elem_of_cons. tauto.
    + apply (bool_decide_unpack _). by vm_compute.
Qed.

Lemma collision_fallback_witness :
  "Power Station B" ≠ ""
  ∧ truthy (js_get {[ "Power Station A" := VStr "#3CB44B" ]} "Power Station B")
    = false
  ∧ baseColorFor "Power Station B"
    ∈ Object_values {[ "Power Station A" := VStr "#3CB44B" ]}
  ∧ getColorForGroup (Name "Power Station B")
      {| colorCache := {[ "Power Station A" := VStr "#3CB44B" ]};
         availableColors := distinctPalette |}
    = (VStr "#E6194B",
       stored "Power Station B" (VStr "#E6194B")
         {| colorCache := {[ "Power Station A" := VStr "#3CB44B" ]};
            availableColors := distinctPalette |}).
Proof.
  assert ("Power Station B" ≠ "") as Hn by discriminate.
  assert (baseColorFor "Power Station B"
          ∈ Object_values {[ "Power Station A" := VStr "#3CB44B" ]}) as Hb.
  { apply (bool_decide_unpack _). by vm_compute. }
  split; [exact Hn|]. split; [reflexivity|]. split; [exact Hb|].
  apply (proj1 collision_fallback "Power Station B" "#E6194B" []
           [ "#3CB44B"; "#FFE119"; "#4363D8"; "#F58231";
             "#911EB4"; "#46F0F0"; "#F032E6"; "#BCF60C"; "#FABEBE" ]
           {| colorCache := {[ "Power Station A" := VStr "#3CB44B" ]};
              availableColors := distinctPalette |}).
  - exact Hn.
  - reflexivity.
  - reflexivity.
  - right. exact Hb.
  - reflexivity.
  - constructor.
  - apply (bool_decide_unpack _). by vm_compute.
Defined.

(** C9. [getColorForGroup] never throws, but what it returns for the
    name "constructor" on a fresh engine is the function that [{}]
    inherits from [Object.prototype], not a colour token, and nothing
    is stored. *)
Theorem getColorForGroup_constructor :
  getColorForGroup (Name "constructor") initial
  = (VInherited "constructor", initial)
  ∧ ∀ c : string,
      (getColorForGroup (Name "constructor") initial).1 ≠ VStr c.
Proof. split; [reflexivity|]. intros c. discriminate. Qed.

(** ** One call per name on an empty cache *)

Section Tracking.

Implicit Types (st : engine) (name : string) (m : gmap string jsval).

Lemma Object_values_insert m name (w v : jsval) :
  m !! name = None →
  v ∈ Object_values (<[name := w]> m) ↔ v = w ∨ v ∈ Object_values m.
Proof.
  intros Hnone. rewrite !Object_values_spec. split.
  - intros [k Hk]. destruct (decide (name = k)) as [->|Hne].
    + rewrite lookup_insert_eq in Hk. left. congruence.
    + rewrite lookup_insert_ne in Hk by done. eauto.
  - intros [->|[k Hk]].
    + exists name. apply lookup_insert_eq.
    + exists k. rewrite lookup_insert_ne; [done|]. congruence.
Qed.

(** Ten different colours among the values need ten entries. *)
Lemma palette_in_use_size m :
  (∀ c, c ∈ distinctPalette → VStr c ∈ Object_values m) → 10 ≤ size m.
Proof.
  intros Hall.
  assert (VStr <$> distinctPalette ⊆+ Object_values m) as Hsub.
  { apply NoDup_submseteq.
    - apply NoDup_fmap_2; [|apply palette_NoDup]. by intros ?? [=].
    - intros v [c [-> Hc]]%list_elem_of_fmap. by apply Hall. }
  apply submseteq_length in Hsub.
  rewrite length_fmap, palette_length in Hsub.
  unfold Object_values in Hsub.
  by rewrite length_fmap, length_map_to_list in Hsub.
Qed.

Lemma find_none_all {A} (f : A → bool) (l : list A) :
  (∀ x, x ∈ l → f x = false) → List.find f l = None.
Proof.
  induction l as [|y l IH]; intros H; simpl; [done|].
  rewrite (H y) by left. apply IH. intros x Hx. apply H. by right.
Qed.

(** While fewer than ten entries are cached, a new name receives a
    palette colour that no entry holds. *)
Lemma getColorForGroup_unused name st :
  availableColors st = distinctPalette →
  name ≠ "" → truthy (js_get (colorCache st) name) = false →
  size (colorCache st) < 10 →
  ∃ c, c ∈ distinctPalette
       ∧ (VStr c ∉ Object_values (colorCache st))
       ∧ getColorForGroup (Name name) st = (VStr c, stored name (VStr c) st).
Proof.
  intros Hav Hn Hfalsy Hsize.
  assert (truthy (baseColorFor name) = true
          ∧ baseColorFor name ∉ Object_values (colorCache st)
          ∨ (truthy (baseColorFor name) = false
             ∨ baseColorFor name ∈ Object_values (colorCache st)))
    as [[Ht Hfree]|Hscan].
  { destruct (truthy (baseColorFor name)); [|by right; left].
    destruct (decide (baseColorFor name ∈ Object_values (colorCache st)));
      [right; by right|by left]. }
  - destruct (baseColorFor_cases name) as [Hb|(c & Hb & Hc)].
    { rewrite Hb in Ht. discriminate. }
    exists c. rewrite <- Hb. by rewrite getColorForGroup_base.
  - destruct (List.find
                (λ c, negb (Array_includes (Object_values (colorCache st))
                              (VStr c)))
                (availableColors st)) as [c|] eqn:Hfind.
    + pose proof Hfind as Hfind'.
      apply find_some in Hfind' as [Hin Hc].
      apply list_elem_of_In in Hin. rewrite Hav in Hin.
      apply negb_true_iff, Array_includes_false in Hc.
      exists c. repeat split; try done.
      apply getColorForGroup_scan; try done. by apply palette_truthy.
    + exfalso. pose proof (find_none _ _ Hfind) as Hall.
      assert (10 ≤ size (colorCache st)); [|lia].
      apply palette_in_use_size. intros c Hc.
      rewrite <- Hav in Hc. apply list_elem_of_In, Hall in Hc.
      by apply negb_false_iff, Array_includes_true in Hc.
Qed.

Lemma tracks_initial : tracks [] [] initial.
Proof.
  split; try done.
  - intros k [v Hv]. simpl in Hv. by rewrite lookup_empty in Hv.
  - intros v Hv. simpl in Hv. rewrite Object_values_empty in Hv.
    by apply elem_of_nil in Hv.
  - intros v Hv. by apply elem_of_nil in Hv.
  - constructor.
Qed.

Lemma filter_length_le {A} (f : A → bool) (l : list A) :
  length (List.filter f l) ≤ length l.
Proof.
  induction l as [|x l IH]; simpl; [done|]. destruct (f x); simpl; lia.
Qed.

(** One more name. *)
Lemma tracks_step (done : list string) (outs : list jsval) name st :
  tracks done outs st → name ∉ done → name ≠ "" → length done < 10 →
  tracks (done ++ [name])
         (outs ++ [(getColorForGroup (Name name) st).1])
         (getColorForGroup (Name name) st).2.
Proof.
  intros [Hav Hkeys Hvals Houts Hinj Hnd Hsize Hlen] Hnew Hn Hroom.
  assert (colorCache st !! name = None) as Hnone.
  { destruct (colorCache st !! name) eqn:E; [|done].
    destruct Hnew. apply Hkeys. by rewrite E. }
  destruct (inherited name) eqn:Hinh.
  - (* a member of the prototype: returned as it is, nothing stored *)
    assert (js_get (colorCache st) name = VInherited name) as Hget.
    { by rewrite js_get_absent, Hinh. }
    rewrite getColorForGroup_cached by (by rewrite ?Hget). rewrite Hget.
    simpl. split; try done.
    + intros k Hk. apply elem_of_app. left. by apply Hkeys.
    + intros v Hv. destruct (Hvals v Hv) as [Ho Hc]. split; [|done].
      apply elem_of_app. by left.
    + intros v [Hv|Hv%list_elem_of_singleton]%elem_of_app.
      * destruct (Houts v Hv) as [?|(k & Hk & Hki & ->)]; [by left|].
        right. exists k. split; [|done]. apply elem_of_app. by left.
      * right. exists name. subst v. split; [|done].
        apply elem_of_app. right. by left.
    + apply NoDup_app. split; [done|]. split; [|apply NoDup_singleton].
      intros v Hv ->%list_elem_of_singleton.
      destruct (Houts _ Hv) as [Hval|(k & Hk & _ & [= ->])]; [|done].
      by destruct (Hvals _ Hval) as [_ (c & ? & _)].
    + rewrite List.filter_app, length_app. simpl. rewrite Hinh. simpl. lia.
    + rewrite !length_app. simpl. lia.
  - (* an ordinary name: a colour that no entry holds is stored *)
    assert (truthy (js_get (colorCache st) name) = false) as Hfalsy.
    { by rewrite js_get_absent, Hinh. }
    destruct (getColorForGroup_unused name st Hav Hn Hfalsy)
      as (c & Hc & Hfree & ->).
    { rewrite Hsize. pose proof (filter_length_le
        (λ k, negb (inherited k)) done). lia. }
    simpl. split; simpl; try done.
    + intros k [v Hk]. apply elem_of_app.
      destruct (decide (name = k)) as [->|Hne]; [right; left|].
      rewrite lookup_insert_ne in Hk by done. left. apply Hkeys. by rewrite Hk.
    + intros v Hv. apply Object_values_insert in Hv; [|done].
      destruct Hv as [->|Hv].
      * split; [|eauto]. apply elem_of_app. right. left.
      * destruct (Hvals v Hv) as [Ho Hcc]. split; [|done].
        apply elem_of_app. by left.
    + intros v [Hv|Hv%list_elem_of_singleton]%elem_of_app.
      * destruct (Houts v Hv) as [Hval|(k & Hk & Hki & ->)].
        -- left. apply Object_values_insert; [done|]. by right.
        -- right. exists k. split; [|done]. apply elem_of_app. by left.
      * left. apply Object_values_insert; [done|]. by left.
    + intros k1 k2 v H1 H2.
      destruct (decide (name = k1)) as [<-|Hne1];
        destruct (decide (name = k2)) as [<-|Hne2]; [done| | |].
      * rewrite lookup_insert_eq in H1. rewrite lookup_insert_ne in H2 by done.
        injection H1 as <-. destruct Hfree. apply Object_values_spec. eauto.
      * rewrite lookup_insert_eq in H2. rewrite lookup_insert_ne in H1 by done.
        injection H2 as <-. destruct Hfree. apply Object_values_spec. eauto.
      * rewrite lookup_insert_ne in H1, H2 by done. by eapply Hinj.
    + apply NoDup_app. split; [done|]. split; [|apply NoDup_singleton].
      intros v Hv ->%list_elem_of_singleton.
      by destruct (Houts _ Hv) as [Hval|(k & _ & _ & [=])].
    + rewrite map_size_insert_None by done.
      rewrite List.filter_app, length_app. simpl. rewrite Hinh. simpl. lia.
    + rewrite !length_app. simpl. lia.
Qed.

Lemma assignAll_app (l1 l2 : list jsname) st :
  assignAll (l1 ++ l2) st
  = ((assignAll l1 st).1 ++ (assignAll l2 (assignAll l1 st).2).1,
     (assignAll l2 (assignAll l1 st).2).2).
Proof.
  revert st. induction l1 as [|n l1 IH]; intros st.
  - simpl. by destruct (assignAll l2 st).
  - rewrite <- app_comm_cons, !assignAll_cons, IH. done.
Qed.

(** One call for each of a list of new names. *)
Lemma assignAll_tracks (names done : list string) (outs : list jsval) st :
  tracks done outs st → NoDup (done ++ names) →
  Forall (λ n, n ≠ "") names → length done + length names ≤ 10 →
  tracks (done ++ names)
         (outs ++ (assignAll (Name <$> names) st).1)
         (assignAll (Name <$> names) st).2.
Proof.
  revert done outs st.
  induction names as [|n names IH]; intros done outs st Htr Hnd Hne Hlen.
  - simpl. by rewrite !app_nil_r.
  - rewrite fmap_cons, assignAll_cons. simpl.
    apply Forall_cons in Hne as [Hn Hne]. simpl in Hlen.
    rewrite (cons_middle n done names), app_assoc in Hnd |- *.
    rewrite (cons_middle _ outs), app_assoc.
    apply IH; try done.
    + apply tracks_step; try done; [|lia].
      apply NoDup_app in Hnd as [Hnd _].
      apply NoDup_app in Hnd as (_ & Hnd & _).
      intros Hin. apply (Hnd n Hin). left.
    + rewrite length_app. simpl. lia.
Qed.

Lemma filter_all {A} (f : A → bool) (l : list A) :
  Forall (λ x, f x = true) l → List.filter f l = l.
Proof.
  induction 1 as [|x l Hx _ IH]; simpl; [done|]. by rewrite Hx, IH.
Qed.

(** With ten entries tracked, every palette colour is in use. *)
Lemma tracks_full (done : list string) (outs : list jsval) st :
  tracks done outs st → size (colorCache st) = 10 →
  ∀ c, c ∈ distinctPalette → VStr c ∈ Object_values (colorCache st).
Proof.
  intros [_ _ Hvals _ Hinj _ _ _] Hsize.
  assert (NoDup (Object_values (colorCache st))) as Hnd.
  { unfold Object_values. apply NoDup_fmap_2_strong.
    - intros [k1 v1] [k2 v2] H1%elem_of_map_to_list H2%elem_of_map_to_list.
      simpl. intros <-. f_equal. by eapply Hinj.
    - apply NoDup_map_to_list. }
  assert (Object_values (colorCache st) ⊆+ VStr <$> distinctPalette) as Hsub.
  { apply NoDup_submseteq; [done|]. intros v Hv.
    destruct (Hvals v Hv) as [_ (c & -> & Hc)].
    by apply list_elem_of_fmap_2. }
  apply submseteq_length_Permutation in Hsub.
  - intros c Hc. rewrite Hsub. by apply list_elem_of_fmap_2.
  - rewrite length_fmap, palette_length. unfold Object_values.
    rewrite length_fmap, length_map_to_list. lia.
Qed.

(** The exhaustion branch. *)
Lemma getColorForGroup_wraparound name st :
  name ≠ "" → truthy (js_get (colorCache st) name) = false →
  availableColors st = distinctPalette →
  (∀ c, c ∈ distinctPalette → VStr c ∈ Object_values (colorCache st)) →
  let v := Array_at distinctPalette (size (colorCache st) `mod` 10) in
  getColorForGroup (Name name) st = (v, stored name v st).
Proof.
  intros Hn Hfalsy Hav Hall. apply getColorForGroup_exhausted; try done.
  - destruct (baseColorFor_cases name) as [->|(c & -> & Hc)];
      [by left|right; by apply Hall].
  - apply find_none_all. intros c Hc. rewrite Hav in Hc.
    apply Hall, Array_includes_true in Hc. by rewrite Hc.
Qed.

End Tracking.

(** C1. At most ten different non-empty names, one call each on a fresh
    or freshly reset engine: the values returned are pairwise distinct,
    and no two names of the cache hold the same colour. *)
Theorem no_collision_under_10 (names : list string) (st0 : engine) :
  NoDup names → Forall (λ n, n ≠ "") names → length names ≤ 10 →
  NoDup (assignAll (Name <$> names) initial).1
  ∧ NoDup (assignAll (Name <$> names) (resetColorSystem st0)).1
  ∧ (∀ k1 k2 v,
       getColorCache (assignAll (Name <$> names) initial).2 !! k1 = Some v →
       getColorCache (assignAll (Name <$> names) initial).2 !! k2 = Some v →
       k1 = k2).
Proof.
  intros Hnd Hne Hlen.
  destruct (assignAll_tracks names [] [] initial tracks_initial)
    as [_ _ _ _ Hinj Hout _ _]; try done.
Qed.

Lemma no_collision_under_10_witness :
  NoDup ["Power Station A"; "Power Station B"; "toString"; "Gas Boilers"]
  ∧ Forall (λ n, n ≠ "")
      ["Power Station A"; "Power Station B"; "toString"; "Gas Boilers"]
  ∧ NoDup (assignAll
             (Name <$> ["Power Station A"; "Power Station B"; "toString";
                        "Gas Boilers"]) initial).1.
Proof.
  assert (NoDup ["Power Station A"; "Power Station B"; "toString";
                 "Gas Boilers"]) as Hnd.
  { apply (bool_decide_unpack _). by vm_compute. }
  assert (Forall (λ n, n ≠ "")
            ["Power Station A"; "Power Station B"; "toString"; "Gas Boilers"])
    as Hne by (repeat constructor; discriminate).
  split; [exact Hnd|]. split; [exact Hne|].
  apply (no_collision_under_10
           ["Power Station A"; "Power Station B"; "toString"; "Gas Boilers"]
           initial Hnd Hne).
  simpl. lia.
Defined.

(** C5 as stated fails.  The eleventh name does not always repeat the
    colour of the first one: a first name with a category takes that
    category's colour, not [palette[0]].  And it does not always get
    [palette[0]]: a name that [{}] inherits is never stored, so ten
    other names do not exhaust the palette. *)
Lemma eleventh_name_counterexample :
  let names := ["gas"; "b"; "c"; "d"; "e"; "f"; "g"; "h"; "i"; "j"; "k"] in
  let outs := (assignAll (Name <$> names) initial).1 in
  let names' :=
    ["constructor"; "a"; "b"; "c"; "d"; "e"; "f"; "g"; "h"; "i"; "j"] in
  let outs' := (assignAll (Name <$> names') initial).1 in
  (NoDup names ∧ Forall (λ n, n ≠ "") names ∧ length names = 11
   ∧ outs !! 10 = Some (VStr "#E6194B")
   ∧ outs !! 0 = Some (VStr "#4363D8")
   ∧ outs !! 0 ≠ outs !! 10)
  ∧ (NoDup names' ∧ Forall (λ n, n ≠ "") names' ∧ length names' = 11
     ∧ outs' !! 10 = Some (VStr "#FABEBE")
     ∧ outs' !! 10 ≠ Some (VStr "#E6194B")).
Proof.
  cbv zeta. split.
  - split; [apply (bool_decide_unpack _); by vm_compute|].
    split; [repeat constructor; discriminate|].
    split; [reflexivity|].
    assert ((assignAll
               (Name <$> ["gas"; "b"; "c"; "d"; "e"; "f"; "g"; "h"; "i"; "j";
                          "k"]) initial).1
            = VStr <$> ["#4363D8"; "#E6194B"; "#3CB44B"; "#FFE119"; "#F58231";
                        "#911EB4"; "#46F0F0"; "#F032E6"; "#BCF60C"; "#FABEBE";
                        "#E6194B"]) as -> by (by vm_compute).
    by repeat split.
  - split; [apply (bool_decide_unpack _); by vm_compute|].
    split; [repeat constructor; discriminate|].
    split; [reflexivity|].
    assert ((assignAll
               (Name <$> ["constructor"; "a"; "b"; "c"; "d"; "e"; "f"; "g";
                          "h"; "i"; "j"]) initial).1
            = VInherited "constructor"
              :: (VStr <$> ["#E6194B"; "#3CB44B"; "#FFE119"; "#4363D8";
                            "#F58231"; "#911EB4"; "#46F0F0"; "#F032E6";
                            "#BCF60C"; "#FABEBE"])) as -> by (by vm_compute).
    by repeat split.
Qed.

(** C5, amended.  When every palette colour is among the values of the
    cache, a non-empty name without cached colour receives
    [palette[size mod 10]].  Eleven different non-empty names, none of
    them a property name of [Object.prototype], one call each on a fresh
    engine: the eleventh receives [palette[0] = #E6194B], which one of
    the first ten already holds; that one is the first name when it has
    no category colour, or the category colour [#E6194B]. *)
Theorem wraparound_at_exhaustion :
  (∀ (name : string) (st : engine),
     name ≠ "" →
     truthy (js_get (colorCache st) name) = false →
     availableColors st = distinctPalette →
     (∀ c, c ∈ distinctPalette → VStr c ∈ Object_values (colorCache st)) →
     (getColorForGroup (Name name) st).1
     = Array_at distinctPalette
         (length (Object_keys (colorCache st)) `mod` length distinctPalette))
  ∧ Array_at distinctPalette (10 `mod` 10) = VStr "#E6194B"
  ∧ (∀ names : list string,
       length names = 11 → NoDup names →
       Forall (λ n, n ≠ "" ∧ n ∉ objectPrototypeKeys) names →
       let outs := (assignAll (Name <$> names) initial).1 in
       outs !! 10 = Some (VStr "#E6194B")
       ∧ (∃ i, i < 10 ∧ outs !! i = Some (VStr "#E6194B"))
       ∧ (∀ n1, names !! 0 = Some n1 →
                baseColorFor n1 = VNull ∨ baseColorFor n1 = VStr "#E6194B" →
                outs !! 0 = Some (VStr "#E6194B"))).
Proof.
  split; [|split; [reflexivity|]].
  { intros name st Hn Hfalsy Hav Hall.
    rewrite getColorForGroup_wraparound by done.
    by rewrite Object_keys_length. }
  intros names Hlen Hnd Hok outs.
  assert (Forall (λ n, n ≠ "") names) as Hne.
  { eapply Forall_impl; [exact Hok|]. by intros n [? _]. }
  assert (Forall (λ n, negb (inherited n) = true) names) as Hplain.
  { eapply Forall_impl; [exact Hok|]. intros n [_ Hn]. simpl.
    apply negb_true_iff. destruct (inherited n) eqn:E; [|done].
    by apply inherited_true in E. }
  (* the first ten names, then the eleventh *)
  destruct (drop 10 names) as [|n11 rest] eqn:Hdrop.
  { apply (f_equal length) in Hdrop. rewrite length_drop in Hdrop.
    simpl in Hdrop. lia. }
  destruct rest as [|? ?].
  2:{ apply (f_equal length) in Hdrop. rewrite length_drop in Hdrop.
      simpl in Hdrop. lia. }
  pose proof (take_drop 10 names) as Hsplit. rewrite Hdrop in Hsplit.
  set (first := take 10 names) in *.
  assert (length first = 10) as Hfirst.
  { subst first. rewrite length_take. lia. }
  rewrite <- Hsplit in Hnd, Hne, Hplain.
  apply NoDup_app in Hnd as (Hnd1 & Hnew & _).
  apply Forall_app in Hne as [Hne1 Hne11].
  apply Forall_app in Hplain as [Hplain1 Hplain11].
  apply Forall_inv in Hne11. apply Forall_inv in Hplain11.
  pose proof (assignAll_tracks first [] [] initial tracks_initial) as Htr.
  simpl in Htr. specialize (Htr Hnd1 Hne1 ltac:(lia)).
  set (outs10 := (assignAll (Name <$> first) initial).1) in *.
  set (st10 := (assignAll (Name <$> first) initial).2) in *.
  assert (size (colorCache st10) = 10) as Hsize.
  { rewrite (tr_size _ _ _ Htr), filter_all; done. }
  pose proof (tracks_full _ _ _ Htr Hsize) as Hfull.
  assert (truthy (js_get (colorCache st10) n11) = false) as Hfalsy.
  { rewrite js_get_absent.
    - apply negb_true_iff in Hplain11. by rewrite Hplain11.
    - destruct (colorCache st10 !! n11) eqn:E; [|done].
      destruct (Hnew n11); [|left].
      apply (tr_keys _ _ _ Htr). by rewrite E. }
  assert (outs = outs10 ++ [VStr "#E6194B"]) as Houts.
  { subst outs. rewrite <- Hsplit, fmap_app, assignAll_app. simpl.
    fold outs10 st10.
    pose proof (getColorForGroup_wraparound n11 st10 Hne11 Hfalsy
                  (tr_palette _ _ _ Htr) Hfull) as Hget.
    simpl in Hget. rewrite Hsize in Hget. rewrite Hget. done. }
  pose proof (tr_length _ _ _ Htr) as Hlen10. rewrite Hfirst in Hlen10.
  split; [|split].
  - rewrite Houts. by apply list_lookup_middle.
  - assert (VStr "#E6194B" ∈ outs10) as Hin.
    { apply (tr_values _ _ _ Htr), Hfull. left. }
    apply list_elem_of_lookup in Hin as [i Hi].
    pose proof (lookup_lt_Some _ _ _ Hi) as Hlt.
    exists i. split; [lia|]. rewrite Houts. by rewrite lookup_app_l.
  - intros n1 Hn1 Hbase. clear Houts. subst outs.
    destruct names as [|n names']; [done|]. injection Hn1 as ->.
    rewrite fmap_cons, assignAll_cons. simpl. f_equal.
    apply Forall_cons in Hok as [[Hnn Hni] _].
    assert (truthy (js_get (colorCache initial) n1) = false) as Hf1.
    { rewrite js_get_absent by apply lookup_empty.
      destruct (inherited n1) eqn:E; [|done]. by apply inherited_true in E. }
    destruct Hbase as [Hb|Hb].
    + rewrite (getColorForGroup_scan n1 initial "#E6194B"); try done.
      left. by rewrite Hb.
    + rewrite getColorForGroup_base; rewrite ?Hb; try done.
      simpl. rewrite Object_values_empty. apply not_elem_of_nil.
Qed.

Lemma wraparound_at_exhaustion_witness :
  let names := ["a"; "b"; "c"; "d"; "e"; "f"; "g"; "h"; "i"; "j"; "k"] in
  length names = 11 ∧ NoDup names
  ∧ Forall (λ n, n ≠ "" ∧ n ∉ objectPrototypeKeys) names
  ∧ (assignAll (Name <$> names) initial).1 !! 10 = Some (VStr "#E6194B").
Proof.
  cbv zeta.
  assert (NoDup ["a"; "b"; "c"; "d"; "e"; "f"; "g"; "h"; "i"; "j"; "k"])
    as Hnd.
  { apply (bool_decide_unpack _). by vm_compute. }
  assert (Forall (λ n, n ≠ "" ∧ n ∉ objectPrototypeKeys)
            ["a"; "b"; "c"; "d"; "e"; "f"; "g"; "h"; "i"; "j"; "k"]) as Hok.
  { repeat constructor; try discriminate;
      apply (bool_decide_unpack _); by vm_compute. }
  split; [reflexivity|]. split; [exact Hnd|]. split; [exact Hok|].
  exact (proj1 (proj2 (proj2 wraparound_at_exhaustion)
                  ["a"; "b"; "c"; "d"; "e"; "f"; "g"; "h"; "i"; "j"; "k"]
                  eq_refl Hnd Hok)).
Defined.

(** ** The extent of the inherited members *)

Section Strings.

(** Every own property of a reachable cache is a string. *)
Lemma run_strings_only (cs : list call) (st : engine) :
  (∀ k v, colorCache st !! k = Some v → ∃ s, v = VStr s) →
  ∀ k v, colorCache (run cs st).2 !! k = Some v → ∃ s, v = VStr s.
Proof.
  revert st. induction cs as [|c cs IH]; intros st Hst; [done|].
  rewrite run_cons. simpl. apply IH. clear IH.
  destruct c as [|n|n col|]; simpl; try done.
  - unfold getColorForGroup.
    destruct n as [|name]; simpl; [done|].
    destruct (str_truthy name) eqn:Hn; simpl; [|done].
    apply str_truthy_true in Hn.
    destruct (truthy (js_get (colorCache st) name)) eqn:Hc; [done|].
    destruct (getColorForGroup_fresh name st Hn Hc) as (c & _ & Hget).
    unfold getColorForGroup in Hget. simpl in Hget.
    apply str_truthy_true in Hn. rewrite Hn, Hc in Hget. simpl in Hget.
    injection Hget as Hv Hst'. rewrite Hv in *. rewrite Hst'. simpl.
    intros k v Hk. destruct (decide (name = k)) as [->|Hne].
    + rewrite lookup_insert_eq in Hk. injection Hk as <-. eauto.
    + rewrite lookup_insert_ne in Hk by done. eauto.
  - intros k v. unfold js_set. destruct (_ && _); [apply Hst|].
    destruct (decide (to_key n = k)) as [->|Hne].
    + rewrite lookup_insert_eq. intros [= <-]. eauto.
    + rewrite lookup_insert_ne by done. apply Hst.
Qed.

(** Apart from the names that [{}] inherits, every call of
    [getColorForGroup] on a loaded module returns a non-empty string. *)
Lemma getColorForGroup_returns_string (cs : list call) (n : jsname) :
  inherited (to_key n) = false →
  ∃ c, c ≠ "" ∧ (getColorForGroup n (run cs initial).2).1 = VStr c.
Proof.
  intros Hinh.
  pose proof (run_strings_only cs initial) as Hstr.
  set (st := (run cs initial).2) in *.
  assert (∀ k v, colorCache st !! k = Some v → ∃ s, v = VStr s) as Hst.
  { apply Hstr. intros k v Hk. simpl in Hk. by rewrite lookup_empty in Hk. }
  destruct (name_truthy n) eqn:Hn.
  - destruct n as [|name]; [done|]. simpl in Hn, Hinh.
    apply str_truthy_true in Hn.
    destruct (truthy (js_get (colorCache st) name)) eqn:Hc.
    + rewrite getColorForGroup_cached by done. simpl.
      unfold js_get in *. destruct (colorCache st !! name) as [v|] eqn:E.
      * destruct (Hst _ _ E) as [s ->]. exists s. split; [|done].
        by apply str_truthy_true.
      * by rewrite Hinh in Hc.
    + destruct (getColorForGroup_fresh name st Hn Hc) as (c & Hct & ->).
      exists c. split; [by apply str_truthy_true|done].
  - exists "#888888". split; [done|].
    unfold getColorForGroup. by rewrite Hn.
Qed.

End Strings.

(** * Further properties of the engine and of its callers *)

(** ** What one call changes *)

Section Effect.

Implicit Types (st : engine) (name : string) (n : jsname).

Lemma js_get_ext (o o' : gmap string jsval) (k : string) :
  o !! k = o' !! k → js_get o k = js_get o' k.
Proof. unfold js_get. by intros ->. Qed.

Lemma js_set_other (o : gmap string jsval) (k k' : string) (v : jsval) :
  k ≠ k' → js_set o k v !! k' = o !! k'.
Proof.
  intros Hne. unfold js_set. destruct (_ && _); [done|].
  by rewrite lookup_insert_ne.
Qed.

(** A call of [getColorForGroup] either leaves the engine as it is, or
    stores a non-empty string, the one it returns, under a non-empty
    name whose entry read falsy. *)
Lemma getColorForGroup_effect n st :
  (getColorForGroup n st).2 = st
  ∨ ∃ name c, n = Name name ∧ name ≠ ""
              ∧ truthy (js_get (colorCache st) name) = false
              ∧ str_truthy c = true
              ∧ getColorForGroup n st = (VStr c, stored name (VStr c) st).
Proof.
  destruct (name_truthy n) eqn:Hn.
  - destruct n as [|name]; [done|]. simpl in Hn.
    apply str_truthy_true in Hn.
    destruct (truthy (js_get (colorCache st) name)) eqn:Hc.
    + left. by rewrite getColorForGroup_cached.
    + right. destruct (getColorForGroup_fresh name st Hn Hc) as (c & Hc' & Hget).
      exists name, c. done.
  - left. unfold getColorForGroup. by rewrite Hn.
Qed.

(** The value returned for a non-empty name is truthy, and it is what
    the cache reads for that name afterwards. *)
Lemma getColorForGroup_read_back name st :
  name ≠ "" →
  truthy (getColorForGroup (Name name) st).1 = true
  ∧ js_get (colorCache (getColorForGroup (Name name) st).2) name
    = (getColorForGroup (Name name) st).1.
Proof.
  intros Hn. destruct (truthy (js_get (colorCache st) name)) eqn:Hc.
  - by rewrite getColorForGroup_cached.
  - destruct (getColorForGroup_fresh name st Hn Hc) as (c & Hc' & ->).
    simpl. split; [done|]. apply js_get_own, lookup_insert_eq.
Qed.

(** A truthy read survives every call that is neither a reset nor an
    override of that key. *)
Lemma step_keeps_read name (c : call) st :
  truthy (js_get (colorCache st) name) = true →
  disturbs name c = false →
  js_get (colorCache (step c st).2) name = js_get (colorCache st) name.
Proof.
  intros Ht Hc. destruct c as [|n|n col|]; simpl in *; try done.
  - destruct (getColorForGroup_effect n st)
      as [Hsame|(name' & c & -> & _ & Hfalsy & _ & Hget)].
    + destruct (getColorForGroup n st) as [v st1]. simpl in *. by subst.
    + rewrite Hget. simpl. apply js_get_ext.
      apply lookup_insert_ne. intros ->. congruence.
  - apply js_get_ext, js_set_other. by apply bool_decide_eq_false in Hc.
Qed.

Lemma run_keeps_read name (cs : list call) st :
  truthy (js_get (colorCache st) name) = true →
  Forall (λ c, disturbs name c = false) cs →
  js_get (colorCache (run cs st).2) name = js_get (colorCache st) name.
Proof.
  revert st. induction cs as [|c cs IH]; intros st Ht Hcs; [done|].
  apply Forall_cons in Hcs as [Hc Hcs]. rewrite run_cons. simpl.
  pose proof (step_keeps_read name c st Ht Hc) as Hstep.
  rewrite IH; [done| |done]. by rewrite Hstep.
Qed.

End Effect.

(** X1. Once [getColorForGroup] has answered for a non-empty name, it
    gives the same answer, and writes nothing, after any number of
    further calls, as long as none of them is a reset or an override of
    that name. *)
Theorem colour_survives_later_calls (name : string) (cs : list call)
    (st : engine) :
  name ≠ "" →
  Forall (λ c, disturbs name c = false) cs →
  getColorForGroup (Name name)
    (run cs (getColorForGroup (Name name) st).2).2
  = ((getColorForGroup (Name name) st).1,
     (run cs (getColorForGroup (Name name) st).2).2).
Proof.
  intros Hn Hcs.
  destruct (getColorForGroup_read_back name st Hn) as [Ht Hread].
  set (st1 := (getColorForGroup (Name name) st).2) in *.
  pose proof (run_keeps_read name cs st1) as Hkeep.
  rewrite Hread in Hkeep. specialize (Hkeep Ht Hcs).
  rewrite getColorForGroup_cached; rewrite ?Hkeep; done.
Qed.

Lemma colour_survives_later_calls_witness :
  "Gas Boilers" ≠ ""
  ∧ Forall (λ c, disturbs "Gas Boilers" c = false)
      [CGet (Name "Gas Works"); CSet (Name "Road Transport") "#4363D8";
       CCache; CGet Undefined]
  ∧ (getColorForGroup (Name "Gas Boilers")
       (run [CGet (Name "Gas Works"); CSet (Name "Road Transport") "#4363D8";
             CCache; CGet Undefined]
          (getColorForGroup (Name "Gas Boilers") initial).2).2).1
    = VStr "#4363D8".
Proof.
  assert ("Gas Boilers" ≠ "") as Hn by discriminate.
  assert (Forall (λ c, disturbs "Gas Boilers" c = false)
            [CGet (Name "Gas Works"); CSet (Name "Road Transport") "#4363D8";
             CCache; CGet Undefined]) as Hcs by (by repeat constructor).
  split; [exact Hn|]. split; [exact Hcs|].
  by rewrite (colour_survives_later_calls "Gas Boilers" _ initial Hn Hcs).
Defined.

(** X2. A call of [getColorForGroup] touches no entry but the one of
    its own name, never changes an entry that holds a truthy value,
    adds at most one entry, and leaves [availableColors] alone. *)
Theorem getColorForGroup_frame (n : jsname) (st : engine) :
  (∀ k, k ≠ to_key n →
        colorCache (getColorForGroup n st).2 !! k = colorCache st !! k)
  ∧ (∀ k v, colorCache st !! k = Some v → truthy v = true →
            colorCache (getColorForGroup n st).2 !! k = Some v)
  ∧ size (colorCache st) ≤ size (colorCache (getColorForGroup n st).2)
  ∧ size (colorCache (getColorForGroup n st).2) ≤ S (size (colorCache st))
  ∧ availableColors (getColorForGroup n st).2 = availableColors st.
Proof.
  destruct (getColorForGroup_effect n st)
    as [Hsame|(name & c & -> & Hn & Hfalsy & Hc & Hget)].
  - rewrite Hsame. repeat split; try done; lia.
  - rewrite Hget. simpl. repeat split.
    + intros k Hk. by rewrite lookup_insert_ne.
    + intros k v Hk Hv. rewrite lookup_insert_ne; [done|].
      intros <-. rewrite (js_get_own _ _ _ Hk) in Hfalsy. congruence.
    + rewrite map_size_insert.
      destruct (colorCache st !! name); unfold id; lia.
    + rewrite map_size_insert.
      destruct (colorCache st !! name); unfold id; lia.
Qed.

(** ** What the cache can hold *)

Section Values.

Implicit Types (st : engine) (name : string) (n : jsname).

(** With the palette in [availableColors], a name that is given a new
    colour is given a palette colour. *)
Lemma getColorForGroup_fresh_palette name st :
  availableColors st = distinctPalette →
  name ≠ "" → truthy (js_get (colorCache st) name) = false →
  ∃ c, c ∈ distinctPalette
       ∧ getColorForGroup (Name name) st = (VStr c, stored name (VStr c) st).
Proof.
  intros Hav Hn Hc. unfold getColorForGroup. cbn [name_truthy to_key].
  apply str_truthy_true in Hn. rewrite Hn. cbn [negb]. rewrite Hc.
  set (chosen := if _ || _ then _ else _).
  rewrite js_set_after_falsy by done.
  destruct (truthy chosen) eqn:Ht; cbn [negb].
  - assert (∃ c, chosen = VStr c ∧ c ∈ distinctPalette) as (c & Hch & Hin).
    { subst chosen. destruct (_ || _).
      - unfold Array_find in *.
        destruct (List.find _ _) as [c|] eqn:Hfind; [|done].
        apply find_some in Hfind as [Hin _]. rewrite Hav in Hin.
        exists c. split; [done|]. by apply list_elem_of_In.
      - destruct (baseColorFor_cases name) as [Hb|(c & Hb & Hin)];
          rewrite Hb in *; [done|eauto]. }
    rewrite Hch. eauto.
  - change (length distinctPalette) with 10.
    destruct (palette_at_str (length (Object_keys (colorCache st)) `mod` 10))
      as (c & -> & Hin); [by apply Nat.mod_upper_bound|].
    eauto.
Qed.

(** Where a value of the cache comes from, one call later. *)
Lemma step_values (c : call) st :
  availableColors st = distinctPalette →
  ∀ k v, colorCache (step c st).2 !! k = Some v →
         (∃ k', colorCache st !! k' = Some v)
         ∨ ∃ col, v = VStr col
                  ∧ (col ∈ distinctPalette ∨ ∃ n, c = CSet n col).
Proof.
  intros Hav k v. destruct c as [|n|n col|]; simpl.
  - by rewrite lookup_empty.
  - destruct (getColorForGroup_effect n st)
      as [Hsame|(name & c & -> & Hn & Hfalsy & _ & _)].
    + destruct (getColorForGroup n st) as [w st1]. simpl in *. subst.
      intros Hk. left. by exists k.
    + destruct (getColorForGroup_fresh_palette name st Hav Hn Hfalsy)
        as (c' & Hin & ->). simpl.
      destruct (decide (name = k)) as [->|Hne].
      * rewrite lookup_insert_eq. intros [= <-]. right. exists c'.
        split; [done|by left].
      * rewrite lookup_insert_ne by done. intros Hk. left. by exists k.
  - unfold js_set. destruct (_ && _); [intros Hk; left; by exists k|].
    destruct (decide (to_key n = k)) as [->|Hne].
    + rewrite lookup_insert_eq. intros [= <-]. right. exists col.
      split; [done|]. right. by exists n.
    + rewrite lookup_insert_ne by done. intros Hk. left. by exists k.
  - intros Hk. left. by exists k.
Qed.

Lemma run_values (cs : list call) st :
  availableColors st = distinctPalette →
  ∀ k v, colorCache (run cs st).2 !! k = Some v →
         (∃ k', colorCache st !! k' = Some v)
         ∨ ∃ col, v = VStr col
                  ∧ (col ∈ distinctPalette ∨ ∃ n, CSet n col ∈ cs).
Proof.
  revert st. induction cs as [|c cs IH]; intros st Hav k v.
  { intros Hk. left. by exists k. }
  rewrite run_cons. simpl. intros Hk.
  assert (availableColors (step c st).2 = distinctPalette) as Hav'.
  { rewrite step_availableColors. by destruct c. }
  destruct (IH _ Hav' k v Hk) as [[k' Hk']|(col & -> & [Hin|[n Hn]])].
  - destruct (step_values c st Hav k' v Hk')
      as [?|(col & -> & [Hin|[n ->]])]; [by left| |].
    + right. exists col. split; [done|by left].
    + right. exists col. split; [done|]. right. exists n. left.
  - right. exists col. split; [done|by left].
  - right. exists col. split; [done|]. right. exists n. by right.
Qed.

(** The key [__proto__] never becomes an own property. *)
Lemma step_no_proto (c : call) st :
  colorCache st !! "__proto__" = None →
  colorCache (step c st).2 !! "__proto__" = None.
Proof.
  intros Hnone. destruct c as [|n|n col|]; simpl; try done.
  - destruct (getColorForGroup_effect n st)
      as [Hsame|(name & c & -> & Hn & Hfalsy & _ & Hget)].
    + destruct (getColorForGroup n st) as [w st1]. simpl in *. by subst.
    + rewrite Hget. simpl. rewrite lookup_insert_ne; [done|].
      intros ->. by rewrite (js_get_absent _ _ Hnone) in Hfalsy.
  - unfold js_set.
    destruct (bool_decide_reflect (to_key n = "__proto__")) as [->|Hne].
    + by rewrite (bool_decide_eq_true_2 _ Hnone).
    + simpl. by rewrite lookup_insert_ne.
Qed.

Lemma run_no_proto (cs : list call) st :
  colorCache st !! "__proto__" = None →
  colorCache (run cs st).2 !! "__proto__" = None.
Proof.
  revert st. induction cs as [|c cs IH]; intros st Hst; [done|].
  rewrite run_cons. simpl. by apply IH, step_no_proto.
Qed.

Lemma sentinel_not_in_palette : "#888888" ∉ distinctPalette.
Proof. apply (bool_decide_unpack _). by vm_compute. Qed.

End Values.

(** X3. After any sequence of calls on a loaded module, every value of
    the cache is a string: one of the ten palette colours, or a colour
    that one of the calls passed to [setColorForGroup]. *)
Theorem cache_values_palette_or_override (cs : list call) (k : string)
    (v : jsval) :
  getColorCache (run cs initial).2 !! k = Some v →
  ∃ col, v = VStr col ∧ (col ∈ distinctPalette ∨ ∃ n, CSet n col ∈ cs).
Proof.
  intros Hk. destruct (run_values cs initial eq_refl k v Hk) as [[k' Hk']|H].
  - simpl in Hk'. by rewrite lookup_empty in Hk'.
  - done.
Qed.

Lemma cache_values_palette_or_override_witness :
  getColorCache
    (run [CGet (Name "Gas Boilers"); CSet (Name "X") "#123456"] initial).2
    !! "X" = Some (VStr "#123456")
  ∧ ∃ col, VStr "#123456" = VStr col
           ∧ (col ∈ distinctPalette
              ∨ ∃ n, CSet n col
                     ∈ [CGet (Name "Gas Boilers"); CSet (Name "X") "#123456"]).
Proof.
  split; [reflexivity|].
  apply (cache_values_palette_or_override
           [CGet (Name "Gas Boilers"); CSet (Name "X") "#123456"] "X").
  reflexivity.
Defined.

(** X4. Whatever the cache holds (overrides included), as long as some
    palette colour is not among its values, a non-empty name without
    cached colour receives a palette colour that no entry holds. *)
Theorem new_colour_avoids_used (name free : string) (st : engine) :
  availableColors st = distinctPalette →
  name ≠ "" →
  truthy (js_get (colorCache st) name) = false →
  free ∈ distinctPalette →
  VStr free ∉ Object_values (colorCache st) →
  ((getColorForGroup (Name name) st).1 ∉ Object_values (colorCache st))
  ∧ ∃ c, c ∈ distinctPalette ∧ (getColorForGroup (Name name) st).1 = VStr c.
Proof.
  intros Hav Hn Hfalsy Hfree Hunused.
  assert (truthy (baseColorFor name) = true
          ∧ baseColorFor name ∉ Object_values (colorCache st)
          ∨ (truthy (baseColorFor name) = false
             ∨ baseColorFor name ∈ Object_values (colorCache st)))
    as [[Ht Hb]|Hscan].
  { destruct (truthy (baseColorFor name)); [|by right; left].
    destruct (decide (baseColorFor name ∈ Object_values (colorCache st)));
      [right; by right|by left]. }
  - rewrite getColorForGroup_base by done. simpl. split; [done|].
    destruct (baseColorFor_cases name) as [Hnull|(c & Hc & Hin)]; [|eauto].
    rewrite Hnull in Ht. discriminate.
  - destruct (List.find
                (λ c, negb (Array_includes (Object_values (colorCache st))
                              (VStr c)))
                (availableColors st)) as [c|] eqn:Hfind.
    + pose proof Hfind as Hfind'. apply find_some in Hfind' as [Hin Hc].
      apply list_elem_of_In in Hin. rewrite Hav in Hin.
      apply negb_true_iff, Array_includes_false in Hc.
      rewrite (getColorForGroup_scan name st c); try done; [eauto|].
      by apply palette_truthy.
    + exfalso. pose proof (find_none _ _ Hfind free) as Hall.
      rewrite Hav in Hall. apply list_elem_of_In in Hfree.
      specialize (Hall Hfree).
      by apply negb_false_iff, Array_includes_true in Hall.
Qed.

Lemma new_colour_avoids_used_witness :
  "Coal" ≠ ""
  ∧ "#3CB44B" ∈ distinctPalette
  ∧ (getColorForGroup (Name "Coal")
       (setColorForGroup (Name "X") "#E6194B" initial)).1
    ∉ Object_values
        (colorCache (setColorForGroup (Name "X") "#E6194B" initial)).
Proof.
  assert ("Coal" ≠ "") as Hn by discriminate.
  assert ("#3CB44B" ∈ distinctPalette) as Hfree.
  { apply (bool_decide_unpack _). by vm_compute. }
  split; [exact Hn|]. split; [exact Hfree|].
  apply (new_colour_avoids_used "Coal" "#3CB44B"
           (setColorForGroup (Name "X") "#E6194B" initial)
           eq_refl Hn eq_refl Hfree).
  apply (bool_decide_unpack _). by vm_compute.
Defined.

(** X7. On a loaded module the cache never gets an own entry
    [__proto__]: [setColorForGroup] does nothing for that name, and
    [getColorForGroup] answers the inherited object for it. *)
Theorem proto_key_never_stored (cs : list call) (color : string) :
  getColorCache (run cs initial).2 !! "__proto__" = None
  ∧ setColorForGroup (Name "__proto__") color (run cs initial).2
    = (run cs initial).2
  ∧ getColorForGroup (Name "__proto__") (run cs initial).2
    = (VInherited "__proto__", (run cs initial).2).
Proof.
  pose proof (run_no_proto cs initial (lookup_empty _)) as Hnone.
  set (st := (run cs initial).2) in *. split; [done|]. split.
  - unfold setColorForGroup, js_set. simpl.
    rewrite (bool_decide_eq_true_2 _ Hnone). simpl. by destruct st.
  - rewrite getColorForGroup_cached; rewrite ?(js_get_absent _ _ Hnone); done.
Qed.

(** X13. Without overrides, the sentinel [#888888] is the answer to an
    empty or missing name and to no other: a name that is given gets a
    palette colour or, for a name that [{}] inherits, the inherited
    member. *)
Theorem sentinel_only_for_missing_name (cs : list call) (n : jsname) :
  Forall (λ c, is_override c = false) cs →
  (getColorForGroup n (run cs initial).2).1 = VStr "#888888"
  ↔ name_truthy n = false.
Proof.
  intros Hcs. split.
  2:{ intros Hn. unfold getColorForGroup. by rewrite Hn. }
  destruct (name_truthy n) eqn:Hn; [|done]. intros Hget. exfalso.
  destruct n as [|name]; [done|]. simpl in Hn. apply str_truthy_true in Hn.
  pose proof (run_availableColors cs initial eq_refl) as Hav.
  pose proof (run_values cs initial eq_refl) as Hvals.
  set (st := (run cs initial).2) in *.
  destruct (truthy (js_get (colorCache st) name)) eqn:Hc.
  - rewrite getColorForGroup_cached in Hget by done. simpl in Hget.
    unfold js_get in Hget. destruct (colorCache st !! name) as [v|] eqn:E.
    + subst v.
      destruct (Hvals _ _ E) as [[k' Hk']|(col & [= <-] & [Hin|[n' Hn']])].
      * simpl in Hk'. by rewrite lookup_empty in Hk'.
      * by apply sentinel_not_in_palette.
      * rewrite Forall_forall in Hcs. by specialize (Hcs _ Hn').
    + by destruct (inherited name).
  - destruct (getColorForGroup_fresh_palette name st Hav Hn Hc)
      as (c & Hin & Hc'). rewrite Hc' in Hget. simpl in Hget.
    injection Hget as ->. by apply sentinel_not_in_palette.
Qed.

Lemma sentinel_only_for_missing_name_witness :
  Forall (λ c, is_override c = false)
    [CGet (Name "Gas Boilers"); CReset; CGet (Name "Coal")]
  ∧ ((getColorForGroup Undefined
        (run [CGet (Name "Gas Boilers"); CReset; CGet (Name "Coal")]
           initial).2).1 = VStr "#888888"
     ↔ name_truthy Undefined = false).
Proof.
  assert (Forall (λ c, is_override c = false)
            [CGet (Name "Gas Boilers"); CReset; CGet (Name "Coal")]) as Hcs
    by (by repeat constructor).
  split; [exact Hcs|].
  exact (sentinel_only_for_missing_name _ Undefined Hcs).
Defined.



(** X9. An override without a name is stored under the key
    "undefined": it colours the group of that name, while a call of
    [getColorForGroup] without a name still answers the sentinel. *)
Theorem setColorForGroup_missing_name (color : string) (st : engine) :
  color ≠ "" →
  getColorCache (setColorForGroup Undefined color st)
  = <[ "undefined" := VStr color ]> (getColorCache st)
  ∧ (getColorForGroup (Name "undefined")
       (setColorForGroup Undefined color st)).1 = VStr color
  ∧ (getColorForGroup Undefined (setColorForGroup Undefined color st)).1
    = VStr "#888888".
Proof.
  intros Hc. split; [|split; [|done]].
  - unfold getColorCache, setColorForGroup. simpl. by apply js_set_plain.
  - assert (js_get (colorCache (setColorForGroup Undefined color st))
              "undefined" = VStr color) as Hg.
    { unfold setColorForGroup. simpl. by apply js_get_set_plain. }
    rewrite getColorForGroup_cached; rewrite ?Hg; try done.
    by apply str_truthy_true.
Qed.

Lemma setColorForGroup_missing_name_witness :
  "#123456" ≠ ""
  ∧ (getColorForGroup (Name "undefined")
       (setColorForGroup Undefined "#123456" initial)).1 = VStr "#123456".
Proof.
  assert ("#123456" ≠ "") as Hc by discriminate.
  split; [exact Hc|].
  exact (proj1 (proj2 (setColorForGroup_missing_name "#123456" initial Hc))).
Defined.

(** ** Beyond ten names *)

Section Cycle.

Implicit Types (st : engine) (name : string).

Lemma assignAll_length (names : list jsname) st :
  length (assignAll names st).1 = length names.
Proof.
  revert st. induction names as [|n names IH]; intros st; [done|].
  rewrite assignAll_cons. simpl. by rewrite IH.
Qed.

(** With the palette used up, the next new name takes the colour at the
    number of entries modulo ten, and the palette stays used up. *)
Lemma exhausted_step (done : list string) name st :
  exhausted done st → name ∉ done → name ≠ "" → inherited name = false →
  getColorForGroup (Name name) st
  = (Array_at distinctPalette (length done `mod` 10),
     stored name (Array_at distinctPalette (length done `mod` 10)) st)
  ∧ exhausted (done ++ [name])
      (stored name (Array_at distinctPalette (length done `mod` 10)) st).
Proof.
  intros [Hav Hkeys Hfull Hsize] Hnew Hn Hinh.
  assert (colorCache st !! name = None) as Hnone.
  { destruct (colorCache st !! name) eqn:E; [|done].
    destruct Hnew. apply Hkeys. by rewrite E. }
  assert (truthy (js_get (colorCache st) name) = false) as Hfalsy.
  { by rewrite js_get_absent, Hinh. }
  pose proof (getColorForGroup_wraparound name st Hn Hfalsy Hav Hfull) as Hget.
  simpl in Hget. rewrite Hsize in Hget. split; [done|].
  split; simpl.
  - done.
  - intros k [v Hk]. apply elem_of_app.
    destruct (decide (name = k)) as [->|Hne]; [right; left|].
    rewrite lookup_insert_ne in Hk by done. left. apply Hkeys. by rewrite Hk.
  - intros c Hc. apply Object_values_insert; [done|]. right. by apply Hfull.
  - rewrite map_size_insert_None by done. rewrite length_app. simpl. lia.
Qed.

Lemma assignAll_exhausted (more done : list string) st :
  exhausted done st → NoDup (done ++ more) →
  Forall (λ n, n ≠ "" ∧ n ∉ objectPrototypeKeys) more →
  ∀ i v, (assignAll (Name <$> more) st).1 !! i = Some v →
         v = Array_at distinctPalette ((length done + i) `mod` 10).
Proof.
  revert done st.
  induction more as [|n more IH]; intros seen st Hex Hnd Hok i v.
  { intros Hv. simpl in Hv. by rewrite lookup_nil in Hv. }
  apply Forall_cons in Hok as [[Hn Hplain] Hok].
  assert (inherited n = false) as Hinh.
  { destruct (inherited n) eqn:E; [|done]. by apply inherited_true in E. }
  assert (n ∉ seen) as Hnew.
  { apply NoDup_app in Hnd as (_ & Hnd & _). intros Hin.
    apply (Hnd n Hin). left. }
  destruct (exhausted_step seen n st Hex Hnew Hn Hinh) as [Hget Hex'].
  rewrite fmap_cons, assignAll_cons, Hget. intros Hv.
  destruct i as [|i]; simpl in Hv.
  - injection Hv as <-. by rewrite Nat.add_0_r.
  - rewrite (cons_middle n seen more), app_assoc in Hnd.
    rewrite (IH _ _ Hex' Hnd Hok i v Hv).
    rewrite length_app.
    replace (length seen + length [n] + i) with (length seen + S i);
      [done|simpl; lia].
Qed.

End Cycle.

(** X5. Different non-empty names, none of them a property name of
    [Object.prototype], one call each on a fresh engine: from the
    eleventh on, the name at position [i] (counted from 0) receives
    [palette[i mod 10]], so the colours repeat in palette order. *)
Theorem palette_cycles_after_ten (names : list string) (i : nat) (v : jsval) :
  NoDup names →
  Forall (λ n, n ≠ "" ∧ n ∉ objectPrototypeKeys) names →
  10 ≤ i →
  (assignAll (Name <$> names) initial).1 !! i = Some v →
  v = Array_at distinctPalette (i `mod` 10).
Proof.
  intros Hnd Hok Hi Hv.
  pose proof (lookup_lt_Some _ _ _ Hv) as Hlt.
  rewrite assignAll_length, length_fmap in Hlt.
  pose proof (take_drop 10 names) as Hsplit.
  set (first := take 10 names) in *. set (more := drop 10 names) in *.
  assert (length first = 10) as Hfirst.
  { subst first. rewrite length_take. lia. }
  rewrite <- Hsplit in Hnd, Hok, Hv.
  pose proof Hnd as Hnd'. apply NoDup_app in Hnd' as (Hnd1 & _ & _).
  apply Forall_app in Hok as [Hok1 Hok2].
  assert (Forall (λ n, n ≠ "") first) as Hne1.
  { eapply Forall_impl; [exact Hok1|]. by intros n [? _]. }
  assert (Forall (λ n, negb (inherited n) = true) first) as Hplain1.
  { eapply Forall_impl; [exact Hok1|]. intros n [_ Hn]. simpl.
    apply negb_true_iff. destruct (inherited n) eqn:E; [|done].
    by apply inherited_true in E. }
  pose proof (assignAll_tracks first [] [] initial tracks_initial) as Htr.
  simpl in Htr. specialize (Htr Hnd1 Hne1 ltac:(lia)).
  assert (size (colorCache (assignAll (Name <$> first) initial).2) = 10)
    as Hsize.
  { rewrite (tr_size _ _ _ Htr), filter_all; done. }
  assert (exhausted first (assignAll (Name <$> first) initial).2) as Hex.
  { split.
    - apply (tr_palette _ _ _ Htr).
    - apply (tr_keys _ _ _ Htr).
    - by apply (tracks_full _ _ _ Htr).
    - by rewrite Hsize. }
  rewrite fmap_app, assignAll_app in Hv. simpl in Hv.
  assert (length (assignAll (Name <$> first) initial).1 = 10) as Hlen10.
  { by rewrite assignAll_length, length_fmap. }
  rewrite lookup_app_r in Hv; [|lia]. rewrite Hlen10 in Hv.
  rewrite (assignAll_exhausted more first _ Hex Hnd Hok2 _ _ Hv).
  rewrite Hfirst. f_equal. f_equal. lia.
Qed.

Lemma palette_cycles_after_ten_witness :
  let names :=
    ["a"; "b"; "c"; "d"; "e"; "f"; "g"; "h"; "i"; "j"; "k"; "l"; "m"] in
  NoDup names
  ∧ Forall (λ n, n ≠ "" ∧ n ∉ objectPrototypeKeys) names
  ∧ 10 ≤ 12
  ∧ (assignAll (Name <$> names) initial).1 !! 12 = Some (VStr "#FFE119")
  ∧ VStr "#FFE119" = Array_at distinctPalette (12 `mod` 10).
Proof.
  cbv zeta.
  assert (NoDup ["a"; "b"; "c"; "d"; "e"; "f"; "g"; "h"; "i"; "j"; "k"; "l";
                 "m"]) as Hnd.
  { apply (bool_decide_unpack _). by vm_compute. }
  assert (Forall (λ n, n ≠ "" ∧ n ∉ objectPrototypeKeys)
            ["a"; "b"; "c"; "d"; "e"; "f"; "g"; "h"; "i"; "j"; "k"; "l"; "m"])
    as Hok.
  { repeat constructor; try discriminate;
      apply (bool_decide_unpack _); by vm_compute. }
  assert ((assignAll
             (Name <$> ["a"; "b"; "c"; "d"; "e"; "f"; "g"; "h"; "i"; "j"; "k";
                        "l"; "m"]) initial).1 !! 12
          = Some (VStr "#FFE119")) as Hv by (by vm_compute).
  split; [exact Hnd|]. split; [exact Hok|]. split; [lia|].
  split; [exact Hv|].
  apply (palette_cycles_after_ten _ 12 (VStr "#FFE119") Hnd Hok);
    [lia|exact Hv].
Defined.

(** ** The same name asked several times *)

Section Repeats.

Implicit Types (st : engine) (name : string) (S : gset string).

Lemma assignAll_keeps_read name (names : list jsname) st :
  truthy (js_get (colorCache st) name) = true →
  js_get (colorCache (assignAll names st).2) name
  = js_get (colorCache st) name.
Proof.
  revert st. induction names as [|n names IH]; intros st Ht; [done|].
  rewrite assignAll_cons. simpl.
  pose proof (step_keeps_read name (CGet n) st Ht eq_refl) as Hstep.
  simpl in Hstep. destruct (getColorForGroup n st) as [w st1].
  simpl in *. rewrite IH; [done|]. by rewrite Hstep.
Qed.

(** Every value returned is what the cache reads for its name at the
    end, and is truthy. *)
Lemma assignAll_reads (names : list string) st (i : nat) name :
  Forall (λ n, n ≠ "") names → names !! i = Some name →
  (assignAll (Name <$> names) st).1 !! i
  = Some (js_get (colorCache (assignAll (Name <$> names) st).2) name)
  ∧ truthy (js_get (colorCache (assignAll (Name <$> names) st).2) name)
    = true.
Proof.
  revert st i. induction names as [|n names IH]; intros st i Hne Hi; [done|].
  apply Forall_cons in Hne as [Hn Hne].
  rewrite fmap_cons, assignAll_cons. simpl.
  destruct i as [|i]; simpl in Hi.
  - injection Hi as ->.
    destruct (getColorForGroup_read_back name st Hn) as [Ht Hread].
    rewrite assignAll_keeps_read; rewrite Hread; done.
  - simpl. by apply IH.
Qed.

(** In a cache of palette colours without repeats, two names that read
    the same truthy value are the same name. *)
Lemma palette_state_read_inj S st (n m : string) :
  palette_state S st →
  truthy (js_get (colorCache st) n) = true →
  js_get (colorCache st) n = js_get (colorCache st) m → n = m.
Proof.
  intros [_ _ Hvals Hinj]. unfold js_get.
  destruct (colorCache st !! n) as [v|] eqn:En;
    destruct (colorCache st !! m) as [w|] eqn:Em.
  - intros _ ->. by eapply Hinj.
  - destruct (Hvals _ _ En) as (c & -> & _).
    by destruct (inherited m).
  - destruct (Hvals _ _ Em) as (c & -> & _).
    by destruct (inherited n).
  - destruct (inherited n); [|done]. destruct (inherited m); [|done].
    by intros _ [= ->].
Qed.

Lemma palette_state_step S name st :
  palette_state S st → size S ≤ 10 → name ∈ S → name ≠ "" →
  palette_state S (getColorForGroup (Name name) st).2.
Proof.
  intros Hps Hsize Hin Hn.
  destruct (getColorForGroup_effect (Name name) st)
    as [->|(name' & c0 & [= <-] & _ & Hfalsy & _ & _)]; [done|].
  destruct Hps as [Hav Hkeys Hvals Hinj].
  assert (colorCache st !! name = None) as Hnone.
  { destruct (colorCache st !! name) as [v|] eqn:E; [|done].
    rewrite (js_get_own _ _ _ E) in Hfalsy.
    destruct (Hvals _ _ E) as (c & -> & Hc). simpl in Hfalsy.
    by rewrite (palette_truthy _ Hc) in Hfalsy. }
  assert (size (colorCache st) < 10) as Hroom.
  { rewrite <- (size_dom (D := gset string)).
    assert (size (dom (colorCache st) ∪ {[name]}) ≤ size S) as Hle.
    { apply subseteq_size. apply union_subseteq. split; [done|].
      by apply singleton_subseteq_l. }
    rewrite size_union, size_singleton in Hle; [lia|].
    apply disjoint_singleton_r. by apply not_elem_of_dom. }
  destruct (getColorForGroup_unused name st Hav Hn Hfalsy Hroom)
    as (c & Hc & Hfree & ->).
  split; simpl.
  - done.
  - rewrite dom_insert_L. apply union_subseteq. split; [|done].
    by apply singleton_subseteq_l.
  - intros k v. destruct (decide (name = k)) as [->|Hne].
    + rewrite lookup_insert_eq. intros [= <-]. by exists c.
    + rewrite lookup_insert_ne by done. apply Hvals.
  - intros k1 k2 v H1 H2.
    destruct (decide (name = k1)) as [<-|Hne1];
      destruct (decide (name = k2)) as [<-|Hne2]; [done| | |].
    + rewrite lookup_insert_eq in H1. rewrite lookup_insert_ne in H2 by done.
      injection H1 as <-. destruct Hfree. apply Object_values_spec.
      by exists k2.
    + rewrite lookup_insert_eq in H2. rewrite lookup_insert_ne in H1 by done.
      injection H2 as <-. destruct Hfree. apply Object_values_spec.
      by exists k1.
    + rewrite lookup_insert_ne in H1, H2 by done. by eapply Hinj.
Qed.

Lemma assignAll_palette_state S (names : list string) st :
  palette_state S st → size S ≤ 10 →
  Forall (λ n, n ∈ S ∧ n ≠ "") names →
  palette_state S (assignAll (Name <$> names) st).2.
Proof.
  revert st. induction names as [|n names IH]; intros st Hps Hsize Hok;
    [done|].
  apply Forall_cons in Hok as [[Hin Hn] Hok].
  rewrite fmap_cons, assignAll_cons. simpl.
  apply IH; [|done|done]. by apply palette_state_step.
Qed.

Lemma palette_state_initial S : palette_state S initial.
Proof.
  split; simpl; try done.
Qed.

Lemma size_list_to_set_le (l : list string) :
  size (list_to_set l : gset string) ≤ length l.
Proof.
  induction l as [|x l IH].
  - rewrite list_to_set_nil, size_empty. done.
  - rewrite list_to_set_cons, size_union_alt, size_singleton. simpl.
    assert (size (list_to_set l ∖ {[x]} : gset string)
            ≤ size (list_to_set l : gset string)); [|lia].
    apply subseteq_size. intros y Hy.
    by apply elem_of_difference in Hy as [Hy _].
Qed.

(** With at most ten different names, two calls return the same value
    exactly when they were made for the same name. *)
Lemma assignAll_same_iff (names : list string) (i j : nat) (n m : string)
    (a b : jsval) :
  Forall (λ n, n ≠ "") names →
  size (list_to_set names : gset string) ≤ 10 →
  names !! i = Some n → names !! j = Some m →
  (assignAll (Name <$> names) initial).1 !! i = Some a →
  (assignAll (Name <$> names) initial).1 !! j = Some b →
  a = b ↔ n = m.
Proof.
  intros Hne Hsize Hi Hj Ha Hb.
  destruct (assignAll_reads names initial i n Hne Hi) as [Ha' Hta].
  destruct (assignAll_reads names initial j m Hne Hj) as [Hb' _].
  rewrite Ha' in Ha. rewrite Hb' in Hb.
  injection Ha as <-. injection Hb as <-.
  split; [|by intros ->].
  apply (palette_state_read_inj (list_to_set names)); [|done].
  apply assignAll_palette_state; [apply palette_state_initial|done|].
  apply Forall_forall. intros k Hk. split.
  - by apply elem_of_list_to_set.
  - rewrite Forall_forall in Hne. by apply Hne.
Qed.

Lemma getSelectedGroups_nonempty (values : list string) :
  Forall (λ n, n ≠ "") (getSelectedGroups values).
Proof.
  apply Forall_forall. intros n Hn. apply list_elem_of_In in Hn.
  apply filter_In in Hn as [_ Hn]. by apply str_truthy_true.
Qed.

End Repeats.

(** X6. Non-empty names, with repeats, at most ten of them different,
    one call each on a fresh engine: two calls return the same colour
    exactly when they were made for the same name. *)
Theorem same_colour_iff_same_name (names : list string) (i j : nat)
    (n m : string) (a b : jsval) :
  Forall (λ n, n ≠ "") names →
  size (list_to_set names : gset string) ≤ 10 →
  names !! i = Some n → names !! j = Some m →
  (assignAll (Name <$> names) initial).1 !! i = Some a →
  (assignAll (Name <$> names) initial).1 !! j = Some b →
  a = b ↔ n = m.
Proof. apply assignAll_same_iff. Qed.

Lemma same_colour_iff_same_name_witness :
  let names := ["Gas Boilers"; "Power Stations"; "Gas Boilers"] in
  Forall (λ n, n ≠ "") names
  ∧ size (list_to_set names : gset string) ≤ 10
  ∧ (assignAll (Name <$> names) initial).1 !! 0 = Some (VStr "#4363D8")
  ∧ (assignAll (Name <$> names) initial).1 !! 2 = Some (VStr "#4363D8")
  ∧ (VStr "#4363D8" = VStr "#4363D8" ↔ "Gas Boilers" = "Gas Boilers").
Proof.
  cbv zeta.
  assert (Forall (λ n, n ≠ "")
            ["Gas Boilers"; "Power Stations"; "Gas Boilers"]) as Hne
    by (repeat constructor; discriminate).
  assert (size (list_to_set ["Gas Boilers"; "Power Stations"; "Gas Boilers"]
                : gset string) ≤ 10) as Hsize.
  { apply (bool_decide_unpack _). by vm_compute. }
  split; [exact Hne|]. split; [exact Hsize|].
  split; [reflexivity|]. split; [reflexivity|].
  exact (same_colour_iff_same_name
           ["Gas Boilers"; "Power Stations"; "Gas Boilers"] 0 2
           "Gas Boilers" "Gas Boilers" _ _ Hne Hsize
           eq_refl eq_refl eq_refl eq_refl).
Defined.



(** X11. With at most ten selected groups, [updateChart] gives two
    positions the same colour exactly when they select the same group:
    different groups are told apart, a group selected twice keeps one
    colour. *)
Theorem updateChart_distinct (values : list string) (st : engine)
    (i j : nat) (n m : string) (a b : jsval) :
  length (getSelectedGroups values) ≤ 10 →
  getSelectedGroups values !! i = Some n →
  getSelectedGroups values !! j = Some m →
  (updateChart values st).1 !! i = Some a →
  (updateChart values st).1 !! j = Some b →
  a = b ↔ n = m.
Proof.
  intros Hlen. apply assignAll_same_iff.
  - apply getSelectedGroups_nonempty.
  - etrans; [apply size_list_to_set_le|done].
Qed.

Lemma updateChart_distinct_witness :
  let values := ["Gas Boilers"; ""; "Power Stations"; "Gas Works"] in
  length (getSelectedGroups values) ≤ 10
  ∧ getSelectedGroups values !! 0 = Some "Gas Boilers"
  ∧ getSelectedGroups values !! 2 = Some "Gas Works"
  ∧ (updateChart values initial).1 !! 0 = Some (VStr "#4363D8")
  ∧ (updateChart values initial).1 !! 2 = Some (VStr "#E6194B")
  ∧ (VStr "#4363D8" = VStr "#E6194B" ↔ "Gas Boilers" = "Gas Works").
Proof.
  cbv zeta.
  assert (length (getSelectedGroups
                    ["Gas Boilers"; ""; "Power Stations"; "Gas Works"]) ≤ 10)
    as Hlen by (simpl; lia).
  split; [exact Hlen|].
  split; [reflexivity|]. split; [reflexivity|].
  split; [reflexivity|]. split; [reflexivity|].
  exact (updateChart_distinct
           ["Gas Boilers"; ""; "Power Stations"; "Gas Works"] initial 0 2
           "Gas Boilers" "Gas Works" _ _ Hlen
           eq_refl eq_refl eq_refl eq_refl).
Defined.

(** ** The snapshot against the answers *)

Lemma assignAll_keys (names : list jsname) (st : engine) (k : string) :
  is_Some (colorCache (assignAll names st).2 !! k) →
  is_Some (colorCache st !! k) ∨ Name k ∈ names.
Proof.
  revert st. induction names as [|n names IH]; intros st; [by left|].
  rewrite assignAll_cons. simpl. intros Hk.
  destruct (IH _ Hk) as [Hk'|Hin]; [|right; by right].
  destruct (getColorForGroup_effect n st)
    as [Hsame|(name & c & -> & _ & _ & _ & Hget)].
  - left. by rewrite <- Hsame.
  - rewrite Hget in Hk'. simpl in Hk'.
    destruct (decide (name = k)) as [->|Hne]; [right; left|].
    left. by rewrite lookup_insert_ne in Hk'.
Qed.

(** X12. Non-empty names, one call each (repeats allowed) on a fresh
    engine: the snapshot of [getColorCache] holds, for every name that
    is not a property name of [Object.prototype], the colour that was
    returned for it, and it holds nothing else. *)
Theorem snapshot_matches_answers (names : list string) :
  Forall (λ n, n ≠ "") names →
  (∀ i n, names !! i = Some n → n ∉ objectPrototypeKeys →
          ∃ v, (assignAll (Name <$> names) initial).1 !! i = Some v
               ∧ getColorCache (assignAll (Name <$> names) initial).2 !! n
                 = Some v)
  ∧ (∀ k v, getColorCache (assignAll (Name <$> names) initial).2 !! k
            = Some v →
            k ∈ names ∧ v ∈ (assignAll (Name <$> names) initial).1).
Proof.
  intros Hne. split.
  - intros i n Hi Hplain.
    destruct (assignAll_reads names initial i n Hne Hi) as [Hread Ht].
    eexists. split; [exact Hread|].
    unfold getColorCache, js_get in *.
    destruct (colorCache _ !! n) as [v|]; [done|].
    destruct (inherited n) eqn:E; [|done].
    by apply inherited_true in E.
  - intros k v Hk. unfold getColorCache in Hk.
    assert (k ∈ names) as Hin.
    { destruct (assignAll_keys (Name <$> names) initial k) as [[w Hw]|Hin].
      - by rewrite Hk.
      - simpl in Hw. by rewrite lookup_empty in Hw.
      - apply list_elem_of_fmap in Hin as (k' & [= ->] & Hin). done. }
    split; [done|].
    apply list_elem_of_lookup in Hin as [i Hi].
    destruct (assignAll_reads names initial i k Hne Hi) as [Hread _].
    rewrite (js_get_own _ _ _ Hk) in Hread.
    by eapply list_elem_of_lookup_2.
Qed.

Lemma snapshot_matches_answers_witness :
  let names := ["Gas Boilers"; "toString"; "Gas Boilers"; "Coal"] in
  Forall (λ n, n ≠ "") names
  ∧ names !! 3 = Some "Coal"
  ∧ ("Coal" ∉ objectPrototypeKeys)
  ∧ ∃ v, (assignAll (Name <$> names) initial).1 !! 3 = Some v
         ∧ getColorCache (assignAll (Name <$> names) initial).2 !! "Coal"
           = Some v.
Proof.
  cbv zeta.
  assert (Forall (λ n, n ≠ "")
            ["Gas Boilers"; "toString"; "Gas Boilers"; "Coal"]) as Hne
    by (repeat constructor; discriminate).
  assert ("Coal" ∉ objectPrototypeKeys) as Hplain.
  { apply (bool_decide_unpack _). by vm_compute. }
  split; [exact Hne|]. split; [reflexivity|]. split; [exact Hplain|].
  exact (proj1 (snapshot_matches_answers
                  ["Gas Boilers"; "toString"; "Gas Boilers"; "Coal"] Hne)
           3 "Coal" eq_refl Hplain).
Defined.
